(** * AdditionalValidationSets: a Keras callback that scores extra validation sets

    Shallow embedding of
    [src/implementations/relevant_parts_of_most_recent_version.py].

    The callback is a Python object whose methods mutate [self] and call into
    an external model and external generators.  The embedding has

    - a small universe of Python values ([pyval]) with the dynamic operations
      the callback applies to them ([len], unpacking, indexing, [.shape[0]],
      iteration, [zip( * ...)], [next]);
    - Python exceptions as an [outcome] type;
    - a state-and-exception monad [M] over a [world] holding the callback
      object, the generators, the log of external calls and standard output.
      A raised exception keeps the mutations made before it, as in Python. *)

From stdpp Require Import base option list strings gmap fin_maps.
From Stdlib Require Import ZArith Lia.

Local Open Scope string_scope.
Local Open Scope list_scope.
Local Open Scope Z_scope.

Set Warnings "-register-all".

(** ** Python values *)

(** Floats are needed for [math.nan] only; no float arithmetic is done by the
    callback. *)
Inductive pyfloat :=
| Fnan
| Finf (negative : bool)
| Ffin (mantissa exponent : Z).

Inductive pyval :=
| VNone
| VInt (n : Z)
| VFloat (x : pyfloat)
| VStr (s : string)
| VSeq (items : list pyval)      (* a tuple or a list *)
| VArr (rows : list pyval)       (* a numpy array, as the rows along axis 0 *)
| VGen (g : nat).                (* a generator object: reference into the store *)

Definition nan : pyval := VFloat Fnan.

(** ** Exceptions *)

(** [Unmodelled] marks a step that leaves the modelled fragment of Python:
    iterating or unpacking a generator object directly (the callback advances
    generators with [next] only). *)
Inductive exn :=
| ValueError
| TypeError
| IndexError
| AttributeError
| AssertionError
| StopIteration
| ExternalError (code : nat)     (* anything raised inside the model *)
| Unmodelled.

Inductive outcome (A : Type) :=
| Ok (a : A)
| Raise (e : exn).
Arguments Ok {A} a.
Arguments Raise {A} e.

Definition is_ok {A} (r : outcome A) : bool :=
  match r with Ok _ => true | Raise _ => false end.

#[export] Instance outcome_ret : MRet outcome := fun _ a => Ok a.
#[export] Instance outcome_bind : MBind outcome := fun _ _ f r =>
  match r with Ok a => f a | Raise e => Raise e end.

(** ** Dynamic operations on values *)

(** The one-character strings of a string, as iteration over a [str] yields. *)
Fixpoint str_chars (s : string) : list pyval :=
  match s with
  | EmptyString => []
  | String c s' => VStr (String c EmptyString) :: str_chars s'
  end.

(** [len(v)] *)
Definition py_len (v : pyval) : outcome nat :=
  match v with
  | VSeq l | VArr l => Ok (length l)
  | VStr s => Ok (String.length s)
  | _ => Raise TypeError
  end.

(** The items of a container, in order; what [for x in v], [*v] and
    unpacking go through. *)
Definition py_iter (v : pyval) : outcome (list pyval) :=
  match v with
  | VSeq l | VArr l => Ok l
  | VStr s => Ok (str_chars s)
  | VGen _ => Raise Unmodelled
  | _ => Raise TypeError
  end.

(** [a, b, ... = v] with [n] targets *)
Definition py_unpack (n : nat) (v : pyval) : outcome (list pyval) :=
  items ← py_iter v;
  if bool_decide (length items = n) then Ok items else Raise ValueError.

(** [l[i]] on a sequence, with Python's negative indices *)
Definition seq_getitem {A} (l : list A) (i : Z) : outcome A :=
  let j := if bool_decide (i < 0) then i + Z.of_nat (length l) else i in
  if bool_decide (0 ≤ j) then
    match l !! Z.to_nat j with
    | Some x => Ok x
    | None => Raise IndexError
    end
  else Raise IndexError.

(** [v[i]] *)
Definition py_getitem (v : pyval) (i : Z) : outcome pyval :=
  match v with
  | VSeq l | VArr l => seq_getitem l i
  | VStr s => seq_getitem (str_chars s) i
  | _ => Raise TypeError
  end.

(** [v.shape[0]]: only arrays have a shape. *)
Definition py_shape0 (v : pyval) : outcome nat :=
  match v with
  | VArr rows => Ok (length rows)
  | _ => Raise AttributeError
  end.

(** [v[0].shape[0]].  An item of an array that is not an array itself is a
    numpy scalar: it has a shape, the empty tuple, which has no first
    entry. *)
Definition first_shape0 (v : pyval) : outcome nat :=
  first ← py_getitem v 0;
  match v, first with
  | VArr _, (VInt _ | VFloat _ | VStr _) => Raise IndexError
  | _, _ => py_shape0 first
  end.

(** [range(v)] as the number of iterations *)
Definition py_range (v : pyval) : outcome nat :=
  match v with
  | VInt n => Ok (Z.to_nat n)
  | _ => Raise TypeError
  end.

(** [s + v] for a string [s] *)
Definition str_add (s : string) (v : pyval) : outcome string :=
  match v with
  | VStr t => Ok (s +:+ t)
  | _ => Raise TypeError
  end.

(** Monadic map over a list, left to right, stopping at the first exception. *)
Fixpoint traverse {A B} (f : A → outcome B) (l : list A) : outcome (list B) :=
  match l with
  | [] => Ok []
  | x :: l' => y ← f x; ys ← traverse f l'; Ok (y :: ys)
  end.

(** [zip( * columns)] on already-iterated columns: the tuples of the i-th
    items, as long as every column has one; no column at all gives nothing. *)
Fixpoint zip_rows (fuel : nat) (cols : list (list pyval)) : list pyval :=
  match fuel with
  | O => []
  | S fuel' =>
      match mapM head cols with
      | Some row => VSeq row :: zip_rows fuel' (tail <$> cols)
      | None => []
      end
  end.

(** [list(zip( * v))] *)
Definition py_zip_star (v : pyval) : outcome (list pyval) :=
  outs ← py_iter v;
  cols ← traverse py_iter outs;
  match cols with
  | [] => Ok []
  | c :: _ => Ok (zip_rows (length c) cols)
  end.

(** ** The external model and the generators *)

(** A generator is the finite sequence of items it has yet to yield; [next]
    on an exhausted generator raises [StopIteration].  A run that ends has
    drawn finitely many items, so a generator that never ends is covered by
    any long enough prefix of it. *)
Abbreviation genstore := (gmap nat (list pyval)).

(** What the callback uses of [keras.Model].  The three operations are
    opaque to the callback: they may advance generators and may raise. *)
Record Model := {
  metrics_names : list string;
  evaluate_generator :
    pyval → pyval → genstore → genstore * outcome pyval;
  evaluate :
    pyval → pyval → Z → pyval → pyval → genstore → genstore * outcome pyval;
  predict :
    pyval → pyval → genstore → genstore * outcome pyval;
}.

(** ** The callback object *)

Record PredictionsForOneEpoch := {
  y_pred : list pyval;
  y_true : list pyval;
}.

(** An entry of a history sequence: [Union[float, PredictionsForOneEpoch]]. *)
Inductive recorded :=
| Scalar (v : pyval)
| Predictions (p : PredictionsForOneEpoch).

Record AdditionalValidationSets := {
  record_predictions : bool;
  validation_sets : list pyval;
  epoch : list Z;
  history : gmap string (list recorded);
  verbose : Z;
  batch_size : pyval;
  record_original_history : bool;
  model : option Model;          (* [Callback.model], set by the framework *)
}.

Definition set_epoch (e : list Z) (self : AdditionalValidationSets) :=
  {| record_predictions := record_predictions self;
     validation_sets := validation_sets self;
     epoch := e;
     history := history self;
     verbose := verbose self;
     batch_size := batch_size self;
     record_original_history := record_original_history self;
     model := model self |}.

Definition set_history (h : gmap string (list recorded))
    (self : AdditionalValidationSets) :=
  {| record_predictions := record_predictions self;
     validation_sets := validation_sets self;
     epoch := epoch self;
     history := h;
     verbose := verbose self;
     batch_size := batch_size self;
     record_original_history := record_original_history self;
     model := model self |}.

(** [d.setdefault(k, []).append(v)] *)
Definition setdefault_append (k : string) (v : recorded)
    (h : gmap string (list recorded)) : gmap string (list recorded) :=
  <[k := default [] (h !! k) ++ [v]]> h.

(** *** [__init__] *)

(** The loop of lines 27-29: every element must have a length of 2, 3 or 4. *)
Fixpoint check_arities (sets : list pyval) : outcome unit :=
  match sets with
  | [] => Ok tt
  | validation_set :: rest =>
      n ← py_len validation_set;
      if bool_decide (n ∈ [2; 3; 4]%nat) then check_arities rest
      else Raise ValueError
  end.

Definition init (validation_sets : list pyval) (verbose : Z)
    (batch_size : pyval) (record_original_history record_predictions : bool)
    : outcome AdditionalValidationSets :=
  _ ← check_arities validation_sets;
  Ok {| record_predictions := record_predictions;
        validation_sets := validation_sets;
        epoch := [];
        history := ∅;
        verbose := verbose;
        batch_size := batch_size;
        record_original_history := record_original_history;
        model := None |}.

(** *** [on_train_begin] *)

Definition on_train_begin (self : AdditionalValidationSets)
    : AdditionalValidationSets :=
  set_history ∅ (set_epoch [] self).

(** ** The world the callback runs in *)

(** The calls [on_epoch_end] makes outside the callback, logged with what
    they returned.  The log is the interface through which the theorems
    speak of which operation was invoked, on what, in which order. *)
Inductive call :=
| CallEvaluateGenerator (generator steps : pyval)
| CallEvaluate (x y : pyval) (verbose : Z) (sample_weight batch_size : pyval)
| CallPredict (x batch_size : pyval)
| CallNext (generator : pyval).

Record world := {
  self : AdditionalValidationSets;
  gens : genstore;
  calls : list (call * outcome pyval);
  stdout : list (string * pyval);   (* the lines written by [print(key, value)] *)
}.

(** State and exceptions: an exception keeps the state reached so far. *)
Definition M (A : Type) : Type := world → world * outcome A.

#[export] Instance M_ret : MRet M := fun _ a w => (w, Ok a).
#[export] Instance M_bind : MBind M := fun _ _ f c w =>
  match c w with
  | (w', Ok a) => f a w'
  | (w', Raise e) => (w', Raise e)
  end.

Definition raise {A} (e : exn) : M A := fun w => (w, Raise e).

Definition lift {A} (r : outcome A) : M A := fun w => (w, r).

Definition gets {A} (f : AdditionalValidationSets → A) : M A :=
  fun w => (w, Ok (f (self w))).

Definition modify_self (f : AdditionalValidationSets → AdditionalValidationSets)
    : M unit :=
  fun w => ({| self := f (self w); gens := gens w; calls := calls w;
               stdout := stdout w |}, Ok tt).

Definition print (key : string) (value : pyval) : M unit :=
  fun w => ({| self := self w; gens := gens w; calls := calls w;
               stdout := stdout w ++ [(key, value)] |}, Ok tt).

(** A call that leaves the callback: it runs on the generators and is
    logged with its result. *)
Definition external (c : call) (f : genstore → genstore * outcome pyval)
    : M pyval :=
  fun w => let '(g', r) := f (gens w) in
           ({| self := self w; gens := g'; calls := calls w ++ [(c, r)];
               stdout := stdout w |}, r).

(** [assert b] *)
Definition assert (b : bool) : M unit :=
  if b then mret tt else raise AssertionError.

(** [for x in l: body(x)] *)
Fixpoint for_each {A} (body : A → M unit) (l : list A) : M unit :=
  match l with
  | [] => mret tt
  | x :: l' => _ ← body x; for_each body l'
  end.

(** [self.history.setdefault(k, []).append(v)] *)
Definition history_append (k : string) (v : recorded) : M unit :=
  modify_self (fun s => set_history (setdefault_append k v (history s)) s).

(** [next(it)] *)
Definition next_of (g : nat) (st : genstore) : genstore * outcome pyval :=
  match default [] (st !! g) with
  | [] => (st, Raise StopIteration)
  | item :: rest => (<[g := rest]> st, Ok item)
  end.

Definition py_next (it : pyval) : M pyval :=
  match it with
  | VGen g => external (CallNext it) (next_of g)
  | _ => raise TypeError
  end.

(** ** The methods a subclass may override *)

Record overrides := {
  prefix : string;
  model_to_evaluate : AdditionalValidationSets → option Model;
}.

(** The class as written: [prefix] is [''] and the model to evaluate is
    [self.model]. *)
Definition base_class : overrides :=
  {| prefix := ""; model_to_evaluate := model |}.

(** ** [on_epoch_end] *)

(** The variables bound by lines 56-68. *)
Record unpacked := {
  validation_generator : pyval;
  validation_steps : pyval;
  validation_data : pyval;
  validation_targets : pyval;
  sample_weights : pyval;
  validation_set_name : pyval;
}.

(** Lines 56-68: the three shapes are told apart by [len] alone. *)
Definition unpack_validation_set (validation_set : pyval) : outcome unpacked :=
  n ← py_len validation_set;
  if bool_decide (n = 2%nat) then
    items ← py_unpack 2 validation_set;
    match items with
    | [head_; name] =>
        inner ← py_unpack 2 head_;
        match inner with
        | [generator; steps] =>
            Ok {| validation_generator := generator; validation_steps := steps;
                  validation_data := VNone; validation_targets := VNone;
                  sample_weights := VNone; validation_set_name := name |}
        | _ => Raise ValueError
        end
    | _ => Raise ValueError
    end
  else if bool_decide (n = 3%nat) then
    items ← py_unpack 3 validation_set;
    match items with
    | [data; targets; name] =>
        Ok {| validation_generator := VNone; validation_steps := VNone;
              validation_data := data; validation_targets := targets;
              sample_weights := VNone; validation_set_name := name |}
    | _ => Raise ValueError
    end
  else if bool_decide (n = 4%nat) then
    items ← py_unpack 4 validation_set;
    match items with
    | [data; targets; weights; name] =>
        Ok {| validation_generator := VNone; validation_steps := VNone;
              validation_data := data; validation_targets := targets;
              sample_weights := weights; validation_set_name := name |}
    | _ => Raise ValueError
    end
  else Raise ValueError.

(** Lines 80-87: draw [steps] batches and predict on each; the per-batch
    predictions and targets, in the order drawn. *)
Fixpoint predict_batches (m : Model) (generator : pyval) (steps : nat)
    : M (list pyval * list pyval) :=
  match steps with
  | O => mret ([], [])
  | S steps' =>
      batch ← py_next generator;
      xs ← lift (py_getitem batch 0);
      ys ← lift (py_getitem batch 1);
      size ← lift (first_shape0 xs);
      y_pred ← external (CallPredict xs (VInt (Z.of_nat size)))
                        (predict m xs (VInt (Z.of_nat size)));
      '(preds, trues) ← predict_batches m generator steps';
      mret (y_pred :: preds, ys :: trues)
  end.

(** [[output[batch_idx] for output in batch]] *)
Definition example_row (batch : pyval) (batch_idx : nat) : outcome pyval :=
  outputs ← py_iter batch;
  row ← traverse (fun output => py_getitem output (Z.of_nat batch_idx)) outputs;
  Ok (VSeq row).

(** The inner loop of lines 93-94 (and 96-97) for one batch. *)
Definition reformat_batch (batch : pyval) : outcome (list pyval) :=
  n ← first_shape0 batch;
  traverse (example_row batch) (seq 0 n).

(** Lines 92-94 (and 95-97): per-batch outputs to per-example rows. *)
Definition reformat (batches : list pyval) : outcome (list pyval) :=
  rows ← traverse reformat_batch batches;
  Ok (concat rows).

(** Lines 99 and 111:
    [assert len(predictions['y_true']) == len(predictions['y_pred'])]. *)
Definition assert_same_length (p : PredictionsForOneEpoch)
    : M PredictionsForOneEpoch :=
  _ ← assert (bool_decide (length (y_true p) = length (y_pred p)));
  mret p.

(** Lines 76-98: the predictions and the targets of the batches, example
    by example. *)
Definition reformatted_predictions (m : Model) (generator steps : pyval)
    : M PredictionsForOneEpoch :=
  n ← lift (py_range steps);
  '(preds, trues) ← predict_batches m generator n;
  reformatted_pred ← lift (reformat preds);
  reformatted_true ← lift (reformat trues);
  mret {| y_pred := reformatted_pred; y_true := reformatted_true |}.

(** Lines 76-99. *)
Definition generator_predictions (m : Model) (generator steps : pyval)
    : M PredictionsForOneEpoch :=
  p ← reformatted_predictions m generator steps;
  assert_same_length p.

(** Lines 107-110. *)
Definition zipped_predictions (m : Model) (data targets : pyval)
    : M PredictionsForOneEpoch :=
  predicted ← external (CallPredict data VNone) (predict m data VNone);
  pred_rows ← lift (py_zip_star predicted);
  true_rows ← lift (py_zip_star targets);
  mret {| y_pred := pred_rows; y_true := true_rows |}.

(** Lines 107-111. *)
Definition array_predictions (m : Model) (data targets : pyval)
    : M PredictionsForOneEpoch :=
  p ← zipped_predictions m data targets;
  assert_same_length p.

(** [predictions = None], then [if self.record_predictions: predictions = ...]
    as each branch of lines 71-118 has it. *)
Definition with_predictions (results : pyval)
    (predictions : M PredictionsForOneEpoch)
    : M (pyval * option PredictionsForOneEpoch) :=
  record ← gets record_predictions;
  if (record : bool) then p ← predictions; mret (results, Some p)
  else mret (results, None).

(** Lines 70-118: the metric values and, when asked for, the predictions. *)
Definition evaluate_set (model_ : option Model) (u : unpacked)
    : M (pyval * option PredictionsForOneEpoch) :=
  match model_ with
  | Some m =>
      match validation_generator u with
      | VNone =>
          size ← gets batch_size;
          results ← external
            (CallEvaluate (validation_data u) (validation_targets u) 0
                          (sample_weights u) size)
            (evaluate m (validation_data u) (validation_targets u) 0
                      (sample_weights u) size);
          with_predictions results
            (array_predictions m (validation_data u) (validation_targets u))
      | generator =>
          results ← external
            (CallEvaluateGenerator generator (validation_steps u))
            (evaluate_generator m generator (validation_steps u));
          with_predictions results
            (generator_predictions m generator (validation_steps u))
      end
  | None =>
      trained ← gets model;
      match trained with
      | None => raise AttributeError
      | Some tm =>
          with_predictions (VSeq ((fun _ => nan) <$> metrics_names tm))
                           (mret {| y_pred := []; y_true := [] |})
      end
  end.

(** The body of the loop of lines 125-129 at index [i]. *)
Definition record_metric (cls : overrides) (name : pyval) (i : nat)
    (result : pyval) : M unit :=
  named ← lift (str_add (prefix cls) name);
  trained ← gets model;
  match trained with
  | None => raise AttributeError
  | Some tm =>
      metric ← lift (seq_getitem (metrics_names tm) (Z.of_nat i));
      let value_name := (named +:+ "_") +:+ metric in
      _ ← history_append value_name (Scalar result);
      v ← gets verbose;
      if bool_decide (v = 1) then print value_name result else mret tt
  end.

(** [for i, result in enumerate(results)], from index [i] on. *)
Fixpoint record_metrics (cls : overrides) (name : pyval) (i : nat)
    (results : list pyval) : M unit :=
  match results with
  | [] => mret tt
  | result :: rest =>
      _ ← record_metric cls name i result;
      record_metrics cls name (S i) rest
  end.

(** Lines 120-129. *)
Definition record_set (cls : overrides) (name : pyval) (results : pyval)
    (predictions : option PredictionsForOneEpoch) : M unit :=
  record ← gets record_predictions;
  _ ← (if (record : bool) then
         named ← lift (str_add (prefix cls) name);
         let value_name := named +:+ "_predictions" in
         match predictions with
         | None => raise AssertionError
         | Some p => history_append value_name (Predictions p)
         end
       else mret tt);
  items ← lift (py_iter results);
  record_metrics cls name 0 items.

(** The body of the loop over the validation sets, lines 56-129. *)
Definition validate (cls : overrides) (model_ : option Model)
    (validation_set : pyval) : M unit :=
  u ← lift (unpack_validation_set validation_set);
  '(results, predictions) ← evaluate_set model_ u;
  record_set cls (validation_set_name u) results predictions.

(** [logs or {}] *)
Definition logs_or_empty (logs : option (gmap string pyval))
    : gmap string pyval :=
  default ∅ logs.

(** Lines 46-47, on the items of the dictionary. *)
Definition record_logs (items : list (string * pyval)) : M unit :=
  for_each (fun '(k, v) => history_append k (Scalar v)) items.

(** Lines 49-129: everything after the original logs are recorded. *)
Definition evaluate_validation_sets (cls : overrides) : M unit :=
  sets ← gets validation_sets;
  if bool_decide (length sets = 0%nat) then mret tt
  else
    model_ ← gets (model_to_evaluate cls);
    for_each (validate cls model_) sets.

(** Lines 41-47: the epoch number and the original logs. *)
Definition record_epoch_and_logs (epoch_ : Z)
    (logs : option (gmap string pyval)) : M unit :=
  _ ← modify_self (fun s => set_epoch (epoch s ++ [epoch_]) s);
  record ← gets record_original_history;
  if (record : bool) then record_logs (map_to_list (logs_or_empty logs))
  else mret tt.

Definition on_epoch_end (cls : overrides) (epoch_ : Z)
    (logs : option (gmap string pyval)) : M unit :=
  _ ← record_epoch_and_logs epoch_ logs;
  evaluate_validation_sets cls.

(** ** [results] *)

(** [self.history[key][len(self.history[key]) - 1]] *)
Definition last_recorded (l : list recorded) : outcome recorded :=
  seq_getitem l (Z.of_nat (length l) - 1).

(** [None] for an empty history, else the dictionary of the last values. *)
Definition results (self : AdditionalValidationSets)
    : outcome (option (gmap string recorded)) :=
  if bool_decide (dom (history self) = ∅) then Ok None
  else
    pairs ← traverse (fun '(key, l) => v ← last_recorded l; Ok (key, v))
                     (map_to_list (history self));
    Ok (Some (list_to_map pairs)).

(** * The specification's data model *)

(** The three shapes of a validation-set spec, as the docstring of
    [__init__] lists them. *)
Inductive ValidationSetSpec :=
| GeneratorSet (generator : nat) (steps : Z) (name : string)
| ArraySet (data targets : pyval) (name : string)
| WeightedSet (data targets weights : pyval) (name : string).

(** The Python value of a spec: a 2-tuple, a 3-tuple or a 4-tuple. *)
Definition to_py (spec : ValidationSetSpec) : pyval :=
  match spec with
  | GeneratorSet g steps name => VSeq [VSeq [VGen g; VInt steps]; VStr name]
  | ArraySet data targets name => VSeq [data; targets; VStr name]
  | WeightedSet data targets weights name =>
      VSeq [data; targets; weights; VStr name]
  end.

Definition spec_name (spec : ValidationSetSpec) : string :=
  match spec with
  | GeneratorSet _ _ name | ArraySet _ _ name | WeightedSet _ _ _ name => name
  end.

(** An element has arity 2, 3 or 4 when [len] is defined on it and gives
    one of these. *)
Definition good_arity (v : pyval) : Prop :=
  py_len v = Ok 2%nat ∨ py_len v = Ok 3%nat ∨ py_len v = Ok 4%nat.

(** The history after a sequence of [setdefault(k, []).append(v)], in order. *)
Definition append_all (entries : list (string * recorded))
    (h : gmap string (list recorded)) : gmap string (list recorded) :=
  foldl (fun h '(k, v) => setdefault_append k v h) h entries.

(** The key of a metric: the prefix, the validation-set name, an underscore
    and the metric's name. *)
Definition metric_key (pre name metric : string) : string :=
  pre +:+ name +:+ "_" +:+ metric.

(** The key of the predictions: the prefix, the validation-set name and
    ['_predictions']. *)
Definition predictions_key (pre name : string) : string :=
  pre +:+ name +:+ "_predictions".

(** The i-th value under the key of the i-th metric name. *)
Definition metric_entries (pre name : string) (names : list string)
    (values : list pyval) : list (string * recorded) :=
  zip_with (fun metric v => (metric_key pre name metric, Scalar v)) names values.

(** What one validation set adds to the history: the predictions when they
    are recorded, then the metrics. *)
Definition set_entries (pre name : string) (names : list string)
    (record : bool) (p : PredictionsForOneEpoch) (values : list pyval)
    : list (string * recorded) :=
  (if record then [(predictions_key pre name, Predictions p)] else [])
  ++ metric_entries pre name names values.

(** The variables bound by lines 56-68 for a spec of one of the three
    shapes. *)
Definition unpacked_of (spec : ValidationSetSpec) : unpacked :=
  match spec with
  | GeneratorSet g steps name =>
      {| validation_generator := VGen g; validation_steps := VInt steps;
         validation_data := VNone; validation_targets := VNone;
         sample_weights := VNone; validation_set_name := VStr name |}
  | ArraySet data targets name =>
      {| validation_generator := VNone; validation_steps := VNone;
         validation_data := data; validation_targets := targets;
         sample_weights := VNone; validation_set_name := VStr name |}
  | WeightedSet data targets weights name =>
      {| validation_generator := VNone; validation_steps := VNone;
         validation_data := data; validation_targets := targets;
         sample_weights := weights; validation_set_name := VStr name |}
  end.

(** The evaluate operation that matches the shape of a spec: the
    generator-based one on the generator and the step count for a 2-tuple,
    the array-based one on the data and the targets for a 3-tuple and a
    4-tuple, with sample weights for the 4-tuple only. *)
Definition expected_call (size : pyval) (spec : ValidationSetSpec) : call :=
  match spec with
  | GeneratorSet g steps _ => CallEvaluateGenerator (VGen g) (VInt steps)
  | ArraySet data targets _ => CallEvaluate data targets 0 VNone size
  | WeightedSet data targets weights _ =>
      CallEvaluate data targets 0 weights size
  end.

Definition is_evaluate (c : call) : bool :=
  match c with
  | CallEvaluateGenerator _ _ | CallEvaluate _ _ _ _ _ => true
  | CallPredict _ _ | CallNext _ => false
  end.

(** The evaluate calls of a log, in order, with what they returned. *)
Definition evaluate_calls (log : list (call * outcome pyval))
    : list (call * outcome pyval) :=
  List.filter (fun entry => is_evaluate entry.1) log.

(** Every recorded prediction bundle has as many predictions as targets. *)
Definition balanced (v : recorded) : Prop :=
  match v with
  | Scalar _ => True
  | Predictions p => length (y_pred p) = length (y_true p)
  end.

Definition history_balanced (h : gmap string (list recorded)) : Prop :=
  ∀ k l, h !! k = Some l → Forall balanced l.

(** The world after the history and the output have been replaced. *)
Definition recorded_world (h : gmap string (list recorded))
    (out : list (string * pyval)) (w : world) : world :=
  {| self := set_history h (self w); gens := gens w; calls := calls w;
     stdout := out |}.

(** What [print] writes for the metrics when [verbose == 1]. *)
Definition printed (pre name : string) (v : Z) (names : list string)
    (values : list pyval) : list (string * pyval) :=
  if bool_decide (v = 1) then
    zip_with (fun metric x => (metric_key pre name metric, x)) names values
  else [].

(** A step that touches neither the callback object nor the output and
    makes no evaluate call. *)
Definition quiet (w w' : world) : Prop :=
  self w' = self w ∧ stdout w' = stdout w ∧
  ∃ new, calls w' = calls w ++ new ∧ evaluate_calls new = [].

(** A relation between the worlds before and after a computation that holds
    whatever the outcome. *)
Definition keeps {A} (R : world → world → Prop) (c : M A) : Prop :=
  ∀ w, R w (c w).1.

(** Unfold the monad's plumbing, leaving the callback's own steps. *)
Ltac mrun :=
  cbv [mbind M_bind mret M_ret gets lift raise assert history_append
       modify_self print str_add outcome_bind outcome_ret];
  cbn [self gens calls stdout fst snd].

(** A step that only appends balanced entries to the history and lines to
    the output. *)
Definition records (w w' : world) : Prop :=
  ∃ entries out,
    w' = recorded_world (append_all entries (history (self w))) out w ∧
    Forall (fun entry => balanced entry.2) entries.

(** A step that leaves the callback object and the output alone. *)
Definition same_self (w w' : world) : Prop :=
  self w' = self w ∧ stdout w' = stdout w.

(** A step after which every bundle of the history is balanced if every
    bundle was before. *)
Definition keeps_balance (w w' : world) : Prop :=
  history_balanced (history (self w)) → history_balanced (history (self w')).

(** The history entries of the original logs. *)
Definition log_entries (logs : gmap string pyval) : list (string * recorded) :=
  (fun '(k, v) => (k, Scalar v)) <$> map_to_list logs.

(** What a validation set adds to the history when there is no model to
    evaluate: empty predictions when they are recorded, then one
    not-a-number per metric name. *)
Definition no_model_entries (pre : string) (names : list string)
    (record : bool) (spec : ValidationSetSpec) : list (string * recorded) :=
  (if record
   then [(predictions_key pre (spec_name spec),
          Predictions {| y_pred := []; y_true := [] |})]
   else [])
  ++ ((fun metric => (metric_key pre (spec_name spec) metric, Scalar nan))
        <$> names).

(** One round of the loop of lines 80-87: the batch drawn from the
    generator, its inputs and targets, and the predictions on the inputs. *)
Record drawn_batch := {
  batch : pyval;
  inputs : pyval;
  targets : pyval;
  predicted : pyval;
}.

(** The number of examples in the outputs of a batch: the length of the
    first output, an array (0 when there is no such output). *)
Definition batch_length (outputs : pyval) : nat :=
  match outputs with
  | VSeq (VArr rows :: _) | VArr (VArr rows :: _) => length rows
  | _ => 0%nat
  end.

(** The calls of one round: the batch is drawn, then predicted on with its
    own size as the batch size. *)
Definition batch_calls (generator : pyval) (b : drawn_batch)
    : list (call * outcome pyval) :=
  [(CallNext generator, Ok (batch b));
   (CallPredict (inputs b) (VInt (Z.of_nat (batch_length (inputs b)))),
    Ok (predicted b))].

Definition batch_ok (b : drawn_batch) : Prop :=
  py_getitem (batch b) 0 = Ok (inputs b) ∧
  py_getitem (batch b) 1 = Ok (targets b).

(** The example at index [j] of the outputs of a batch: the [j]-th entry of
    each output, in the order of the outputs. *)
Definition example_of (outputs : pyval) (j : nat) (row : pyval) : Prop :=
  ∃ outs cells,
    py_iter outputs = Ok outs ∧ row = VSeq cells ∧
    Forall2 (fun output cell => py_getitem output (Z.of_nat j) = Ok cell)
            outs cells.

(** Per-example order: the example at index [j] of the [i]-th batch is at
    the position given by the sizes of the batches before it plus [j], and
    there is nothing else. *)
Definition per_example (batches : list pyval) (rows : list pyval) : Prop :=
  length rows = sum_list (batch_length <$> batches) ∧
  ∀ i outputs j,
    batches !! i = Some outputs →
    (j < batch_length outputs)%nat →
    ∃ row,
      example_of outputs j row ∧
      rows !! (sum_list (batch_length <$> take i batches) + j)%nat = Some row.

(** What one evaluate call gave: the value it returned, the metric values
    that value iterates to, and the predictions recorded with them (of no
    account when predictions are not recorded). *)
Record evaluation := {
  returned : pyval;
  values : list pyval;
  bundle : PredictionsForOneEpoch;
  log : list (call * outcome pyval);   (* the external calls made for the set *)
}.

(** The returned value iterates to the metric values, there is a metric
    name for each of them, and the bundle is balanced. *)
Definition evaluation_ok (names : list string) (ev : evaluation) : Prop :=
  py_iter (returned ev) = Ok (values ev) ∧
  (length (values ev) ≤ length names)%nat ∧
  length (y_pred (bundle ev)) = length (y_true (bundle ev)).

(** The history entries of a validation set, from what its evaluation gave. *)
Definition evaluation_entries (pre : string) (names : list string)
    (record : bool) (spec : ValidationSetSpec) (ev : evaluation)
    : list (string * recorded) :=
  set_entries pre (spec_name spec) names record (bundle ev) (values ev).

(** The log entry of the evaluate call of a validation set. *)
Definition evaluation_call (size : pyval) (spec : ValidationSetSpec)
    (ev : evaluation) : call * outcome pyval :=
  (expected_call size spec, Ok (returned ev)).

(** The evaluation of a generator-shaped set: the generator-based evaluate
    call, then one round per step, each drawing the next batch and
    predicting on it; the predictions and the targets are recorded in
    per-example order. *)
Definition drawn_in_order (g : nat) (steps : Z) (ev : evaluation)
    (batches : list drawn_batch) : Prop :=
  length batches = Z.to_nat steps ∧
  Forall batch_ok batches ∧
  log ev = (CallEvaluateGenerator (VGen g) (VInt steps), Ok (returned ev))
             :: concat (batch_calls (VGen g) <$> batches) ∧
  per_example (predicted <$> batches) (y_pred (bundle ev)) ∧
  per_example (targets <$> batches) (y_true (bundle ev)).

(** What the successful evaluation of a spec satisfies: one evaluate call,
    the one expected for the shape, whose value gives the metric values;
    and, for a generator-shaped set whose predictions are recorded, the
    rounds of prediction. *)
Definition evaluation_of (size : pyval) (names : list string) (record : bool)
    (spec : ValidationSetSpec) (ev : evaluation) : Prop :=
  evaluation_ok names ev ∧
  evaluate_calls (log ev) = [evaluation_call size spec ev] ∧
  (record = true →
   ∀ g steps name, spec = GeneratorSet g steps name →
                   ∃ batches, drawn_in_order g steps ev batches).



(** The world after lines 41-47, from which the validation sets are
    evaluated. *)
Definition after_logs (epoch_ : Z) (logs : option (gmap string pyval))
    (w : world) : world :=
  (record_epoch_and_logs epoch_ logs w).1.

(** The sequences reconstructed for a validation set, before their lengths
    are compared: the evaluate call, then lines 76-98 for a generator and
    lines 107-110 for arrays. *)
Definition reconstructed (m : Model) (spec : ValidationSetSpec)
    : M PredictionsForOneEpoch :=
  match spec with
  | GeneratorSet g steps _ =>
      _ ← external (CallEvaluateGenerator (VGen g) (VInt steps))
                   (evaluate_generator m (VGen g) (VInt steps));
      reformatted_predictions m (VGen g) (VInt steps)
  | ArraySet data targets _ =>
      size ← gets batch_size;
      _ ← external (CallEvaluate data targets 0 VNone size)
                   (evaluate m data targets 0 VNone size);
      zipped_predictions m data targets
  | WeightedSet data targets weights _ =>
      size ← gets batch_size;
      _ ← external (CallEvaluate data targets 0 weights size)
                   (evaluate m data targets 0 weights size);
      zipped_predictions m data targets
  end.

(** A step that changes nothing of the callback object but its history, to
    which it appends balanced entries. *)
Definition grows (w w' : world) : Prop :=
  ∃ entries,
    self w' = set_history (append_all entries (history (self w))) (self w) ∧
    Forall (fun entry => balanced entry.2) entries.

(** Every sequence of the history has an entry, as those made by
    [setdefault(k, []).append(v)] have. *)
Definition sequences_nonempty (h : gmap string (list recorded)) : Prop :=
  ∀ k l, h !! k = Some l → l ≠ [].

(** The values that a sequence of [setdefault(k, []).append(v)] puts under
    the key [k], in order. *)
Definition appended_under (k : string) (entries : list (string * recorded))
    : list recorded :=
  (filter (fun entry => entry.1 = k) entries).*2.

(** A sequence of the history after values are appended to it: without any
    value the key is as it was, absent or present; with values the sequence
    is the old one (empty when the key was absent) followed by them. *)
Definition extended (old : option (list recorded)) (vs : list recorded)
    : option (list recorded) :=
  match vs with
  | [] => old
  | _ => Some (default [] old ++ vs)
  end.

(** The history [h'] is [h] with the entries appended, each under its own
    key, in order. *)
Definition history_after (h : gmap string (list recorded))
    (entries : list (string * recorded)) (h' : gmap string (list recorded))
    : Prop :=
  ∀ k, h' !! k = extended (h !! k) (appended_under k entries).

(** The operation of the model (or of the generator) that a logged call
    names. *)
Definition perform (m : Model) (c : call)
    : genstore → genstore * outcome pyval :=
  match c with
  | CallEvaluateGenerator generator steps => evaluate_generator m generator steps
  | CallEvaluate x y v sample_weight size => evaluate m x y v sample_weight size
  | CallPredict x size => predict m x size
  | CallNext (VGen g) => next_of g
  | CallNext _ => fun st => (st, Raise TypeError)
  end.

(** The calls [cs] made one after the other on the model [m], from the
    state [st] of the generators: the state they end in and what each of
    them returned. *)
Fixpoint run_calls (m : Model) (st : genstore) (cs : list call)
    : genstore * list (call * outcome pyval) :=
  match cs with
  | [] => (st, [])
  | c :: rest =>
      let '(st1, r) := perform m c st in
      let '(st2, log) := run_calls m st1 rest in
      (st2, (c, r) :: log)
  end.

(** A step whose new entries of the call log are the operations of [m]
    really carried out, in order, on the generators: each logged result is
    what the operation returned in the state the calls before it had left,
    and the generators end in the state the last one left. *)
Definition performed (m : Model) (w w' : world) : Prop :=
  ∃ new,
    calls w' = calls w ++ new ∧
    run_calls m (gens w) new.*1 = (gens w', new).


(** * Examples *)

Definition loss_value : pyval := VFloat (Ffin 1 (-2)).
Definition acc_value : pyval := VFloat (Ffin 3 (-2)).

(** A model with two metrics.  Its generator-based evaluate consumes
    [steps] batches of the generator; its predictions are its inputs. *)
Definition example_model : Model :=
  {| metrics_names := ["loss"; "acc"];
     evaluate_generator := fun generator steps st =>
       match generator, steps with
       | VGen g, VInt n =>
           (<[g := drop (Z.to_nat n) (default [] (st !! g))]> st,
            Ok (VSeq [loss_value; acc_value]))
       | _, _ => (st, Raise TypeError)
       end;
     evaluate := fun _ _ _ _ _ st => (st, Ok (VSeq [loss_value; acc_value]));
     predict := fun x _ st => (st, Ok x) |}.

(** A model that predicts one example whatever it is given. *)
Definition short_model : Model :=
  {| metrics_names := ["loss"];
     evaluate_generator := fun _ _ st => (st, Ok (VSeq [loss_value]));
     evaluate := fun _ _ _ _ _ st => (st, Ok (VSeq [loss_value]));
     predict := fun _ _ st => (st, Ok (VSeq [VArr [VInt 0]])) |}.

(** A batch of two examples, one input array and one target array. *)
Definition example_batch (x1 x2 y1 y2 : Z) : pyval :=
  VSeq [VSeq [VArr [VInt x1; VInt x2]]; VSeq [VArr [VInt y1; VInt y2]]].

Definition example_specs : list ValidationSetSpec :=
  [GeneratorSet 0 2 "gen";
   ArraySet (VSeq [VArr [VInt 1; VInt 2]]) (VSeq [VArr [VInt 0; VInt 1]])
            "held_out"].

Definition example_callback (m : Model) (specs : list ValidationSetSpec)
    : AdditionalValidationSets :=
  {| record_predictions := true;
     validation_sets := to_py <$> specs;
     epoch := [0];
     history := {[ "loss" := [Scalar acc_value] ]};
     verbose := 1;
     batch_size := VNone;
     record_original_history := true;
     model := Some m |}.

Definition example_world (m : Model) (specs : list ValidationSetSpec) : world :=
  {| self := example_callback m specs;
     gens := {[ 0%nat := [example_batch 1 2 0 1; example_batch 3 4 1 0;
                          example_batch 5 6 1 1; example_batch 7 8 0 0] ]};
     calls := [];
     stdout := [] |}.

Definition example_logs : option (gmap string pyval) :=
  Some {[ "loss" := loss_value ]}.

(** A subclass that evaluates no model and prefixes its keys. *)
Definition no_model_class : overrides :=
  {| prefix := "swa_"; model_to_evaluate := fun _ => None |}.

(** Two elements, but not ((generator, steps), name). *)
Definition malformed_set : pyval := VSeq [VInt 5; VStr "extra"].

(** The world the example invocation starts in, and the one it ends in. *)
Definition example_start : world := example_world example_model example_specs.

Definition example_end : world :=
  (on_epoch_end base_class 1 example_logs example_start).1.

(** An array-shaped set whose targets hold two examples. *)
Definition mismatched_spec : ValidationSetSpec :=
  ArraySet (VSeq [VArr [VInt 1; VInt 2]]) (VSeq [VArr [VInt 0; VInt 1]])
           "held_out".

Definition mismatched_start : world :=
  example_world short_model [mismatched_spec].

(** The world in which its predictions, one example, have been
    reconstructed. *)
Definition mismatched_end : world :=
  (reconstructed short_model mismatched_spec
     (after_logs 1 example_logs mismatched_start)).1.

(** A callback that has recorded nothing yet. *)
Definition fresh_callback : AdditionalValidationSets :=
  {| record_predictions := false; validation_sets := []; epoch := [];
     history := ∅; verbose := 0; batch_size := VNone;
     record_original_history := true; model := None |}.

(** The example callback before the framework has attached a model. *)
Definition detached_start : world :=
  {| self :=
       {| record_predictions := true;
          validation_sets := to_py <$> example_specs;
          epoch := []; history := ∅; verbose := 0; batch_size := VNone;
          record_original_history := true; model := None |};
     gens := ∅; calls := []; stdout := [] |}.

(** A callback constructed on the malformed element, model attached. *)
Definition malformed_start : world :=
  {| self :=
       {| record_predictions := false;
          validation_sets := [malformed_set];
          epoch := []; history := ∅; verbose := 0; batch_size := VNone;
          record_original_history := true; model := Some example_model |};
     gens := ∅; calls := []; stdout := [] |}.



(** * Definitions for the properties beyond the data model *)

(** Every sequence of [h] is still there in [h'], as it was or with more
    values after it. *)
Definition extends (h h' : gmap string (list recorded)) : Prop :=
  ∀ k l, h !! k = Some l → ∃ more, h' !! k = Some (l ++ more).

(** The world in which an invocation of [on_epoch_end] leaves the callback,
    whether it returned or raised. *)
Definition after_epoch (cls : overrides) (epoch_ : Z)
    (logs : option (gmap string pyval)) (w : world) : world :=
  (on_epoch_end cls epoch_ logs w).1.

(** A history with a key and no value under it, which only an assignment
    from outside the class can make. *)
Definition hollow_callback : AdditionalValidationSets :=
  {| record_predictions := false; validation_sets := []; epoch := [];
     history := {[ "loss" := [] ]}; verbose := 0; batch_size := VNone;
     record_original_history := true; model := None |}.

(** [Callback.set_model], by which the framework attaches the model that is
    trained; the class takes it from [keras.callbacks.Callback]. *)
Definition set_model (m : option Model) (self : AdditionalValidationSets)
    : AdditionalValidationSets :=
  {| record_predictions := record_predictions self;
     validation_sets := validation_sets self;
     epoch := epoch self;
     history := history self;
     verbose := verbose self;
     batch_size := batch_size self;
     record_original_history := record_original_history self;
     model := m |}.

(** What may happen to a callback object after it is constructed: the
    framework attaches a model, training begins, an epoch ends, or the
    generators move on between two calls. *)
Inductive event :=
| SetModel (m : option Model)
| OnTrainBegin
| OnEpochEnd (epoch_ : Z) (logs : option (gmap string pyval))
| GeneratorsAdvance (st : genstore).

Definition with_self (f : AdditionalValidationSets → AdditionalValidationSets)
    (w : world) : world :=
  {| self := f (self w); gens := gens w; calls := calls w; stdout := stdout w |}.

(** One event; an exception raised by [on_epoch_end] leaves the object as
    it was when it was raised. *)
Definition happen (cls : overrides) (w : world) (ev : event) : world :=
  match ev with
  | SetModel m => with_self (set_model m) w
  | OnTrainBegin => with_self on_train_begin w
  | OnEpochEnd epoch_ logs => after_epoch cls epoch_ logs w
  | GeneratorsAdvance st =>
      {| self := self w; gens := st; calls := calls w; stdout := stdout w |}
  end.

Definition life (cls : overrides) (w : world) (events : list event) : world :=
  foldl (happen cls) w events.

(** The world a newly constructed callback lives in. *)
Definition born (cb : AdditionalValidationSets) (st : genstore) : world :=
  {| self := cb; gens := st; calls := []; stdout := [] |}.

(** A training run of two epochs on the example sets, each ending with the
    callback called, and a second run begun. *)
Definition example_events : list event :=
  [SetModel (Some example_model); OnTrainBegin;
   OnEpochEnd 0 example_logs; OnEpochEnd 1 example_logs;
   OnTrainBegin; OnEpochEnd 0 None].

(** What every event keeps: the configuration given at construction, and a
    history whose sequences have an entry each and whose bundles are
    balanced. *)
Definition sound (sets : list pyval) (v : Z) (b : pyval) (roh rp : bool)
    (self : AdditionalValidationSets) : Prop :=
  validation_sets self = sets ∧ verbose self = v ∧ batch_size self = b ∧
  record_original_history self = roh ∧ record_predictions self = rp ∧
  sequences_nonempty (history self) ∧ history_balanced (history self).

(** The metric values among history entries, with their keys. *)
Definition scalars_of (entries : list (string * recorded))
    : list (string * pyval) :=
  omap (fun '(k, v) => match v with
                       | Scalar x => Some (k, x)
                       | Predictions _ => None
                       end) entries.

(** A step that changes nothing of the callback object but its history, and
    prints the metric values it appends when [verbose] is 1 and nothing
    otherwise. *)
Definition announces (w w' : world) : Prop :=
  ∃ entries,
    self w' = set_history (append_all entries (history (self w))) (self w) ∧
    stdout w' = stdout w ++ (if bool_decide (verbose (self w) = 1)
                             then scalars_of entries else []).

(** A generator that holds just the two batches the evaluation consumes. *)
Definition short_start : world :=
  {| self := example_callback example_model [GeneratorSet 0 2 "gen"];
     gens := {[ 0%nat := [example_batch 1 2 0 1; example_batch 3 4 1 0] ]};
     calls := [];
     stdout := [] |}.

(** A spec of one of the two array shapes, with its data, its targets and
    the sample weights that go to the evaluate call ([None] for a
    3-tuple). *)
Definition array_shaped (spec : ValidationSetSpec)
    (data targets weights : pyval) : Prop :=
  (spec = ArraySet data targets (spec_name spec) ∧ weights = VNone) ∨
  spec = WeightedSet data targets weights (spec_name spec).

(** The example callback in a subclass's use: a model attached, no
    predictions recorded, nothing in the history yet. *)
Definition silent_start : world :=
  {| self :=
       {| record_predictions := false;
          validation_sets := to_py <$> example_specs;
          epoch := []; history := ∅; verbose := 0; batch_size := VNone;
          record_original_history := true; model := Some example_model |};
     gens := ∅; calls := []; stdout := [] |}.

(** * Construction *)

Lemma good_arity_len (v : pyval) (n : nat) :
  py_len v = Ok n → good_arity v ↔ n ∈ [2; 3; 4]%nat.
Proof.
  intros Hn. unfold good_arity. rewrite Hn, !elem_of_cons, elem_of_nil.
  split.
  - intros [H|[H|H]]; injection H as ->; auto.
  - intros [->|[->|[->|[]]]]; auto.
Qed.

Lemma good_arity_raise (v : pyval) (e : exn) :
  py_len v = Raise e → ¬ good_arity v.
Proof. intros He [H|[H|H]]; congruence. Qed.

#[local] Instance good_arity_dec (v : pyval) : Decision (good_arity v).
Proof.
  destruct (py_len v) as [n|e] eqn:Hn.
  - destruct (decide (n ∈ [2; 3; 4]%nat)) as [Hin|Hin].
    + left. by apply (good_arity_len v n).
    + right. by rewrite (good_arity_len v n).
  - right. by apply (good_arity_raise v e).
Defined.

Lemma check_arities_ok (sets : list pyval) :
  check_arities sets = Ok tt ↔ Forall good_arity sets.
Proof.
  induction sets as [|v sets IH]; simpl.
  - split; [constructor | done].
  - rewrite Forall_cons, <- IH.
    destruct (py_len v) as [n|e] eqn:Hn; simpl.
    + rewrite (good_arity_len v n Hn). case_bool_decide; intuition congruence.
    + pose proof (good_arity_raise v e Hn). split; [done | tauto].
Qed.

Lemma init_ok_iff sets v b roh rp :
  (∃ cb, init sets v b roh rp = Ok cb) ↔ Forall good_arity sets.
Proof.
  rewrite <- check_arities_ok. unfold init.
  destruct (check_arities sets) as [[]|e]; simpl; split; eauto.
  - intros [cb Hcb]. done.
  - done.
Qed.

(** C3. Construction raises exactly when some element of the list has an
    arity other than 2, 3 or 4; when every element has arity 2, 3 or 4 it
    succeeds, and the new object holds the arguments, an empty history and
    an empty epoch list. *)
Theorem init_raises_iff_bad_arity sets v b roh rp :
  ((∃ e, init sets v b roh rp = Raise e) ↔
     ∃ validation_set, validation_set ∈ sets ∧ ¬ good_arity validation_set) ∧
  (Forall good_arity sets →
     init sets v b roh rp =
       Ok {| record_predictions := rp; validation_sets := sets; epoch := [];
             history := ∅; verbose := v; batch_size := b;
             record_original_history := roh; model := None |}).
Proof.
  split.
  - pose proof (init_ok_iff sets v b roh rp) as Hok.
    rewrite <- (Exists_exists (fun x => ¬ good_arity x) sets). split.
    + intros [e He]. apply (not_Forall_Exists good_arity).
      intros Hall. apply Hok in Hall as [cb Hcb]. congruence.
    + intros Hex. apply (Exists_not_Forall good_arity) in Hex.
      destruct (init sets v b roh rp) as [cb|e]; [|eauto].
      exfalso. apply Hex, Hok. eauto.
  - intros H. apply check_arities_ok in H. unfold init. by rewrite H.
Qed.

(** * Running the monad *)

Lemma string_app_assoc (a b c : string) : (a +:+ b) +:+ c = a +:+ b +:+ c.
Proof.
  induction a as [|x a IH]; [done|].
  change (String x ((a +:+ b) +:+ c) = String x (a +:+ b +:+ c)).
  by rewrite IH.
Qed.

Lemma bind_run {A B} (c : M A) (k : A → M B) (w : world) :
  (c ≫= k) w =
    match c w with
    | (w1, Ok a) => k a w1
    | (w1, Raise e) => (w1, Raise e)
    end.
Proof. reflexivity. Qed.

Lemma bind_ok {A B} (c : M A) (k : A → M B) (w w' : world) (b : B) :
  (c ≫= k) w = (w', Ok b) →
  ∃ a w1, c w = (w1, Ok a) ∧ k a w1 = (w', Ok b).
Proof.
  rewrite bind_run. destruct (c w) as [w1 [a|e]]; [eauto | done].
Qed.

Lemma lift_ok {A} (r : outcome A) (w w' : world) (a : A) :
  lift r w = (w', Ok a) → r = Ok a ∧ w' = w.
Proof. unfold lift. intros [= -> ->]. done. Qed.

Lemma for_each_app {A} (body : A → M unit) (l k : list A) (w : world) :
  for_each body (l ++ k) w =
    match for_each body l w with
    | (w1, Ok _) => for_each body k w1
    | (w1, Raise e) => (w1, Raise e)
    end.
Proof.
  revert w. induction l as [|x l IH]; intros w; simpl; [done|].
  rewrite !bind_run. destruct (body x w) as [w1 [[]|e]]; [apply IH | done].
Qed.

Lemma recorded_world_id (w : world) :
  recorded_world (history (self w)) (stdout w) w = w.
Proof. destruct w as [[] ? ? ?]; reflexivity. Qed.

Lemma recorded_world_twice h out h' out' w :
  recorded_world h' out' (recorded_world h out w) = recorded_world h' out' w.
Proof. reflexivity. Qed.

Lemma append_all_app (l k : list (string * recorded)) h :
  append_all (l ++ k) h = append_all k (append_all l h).
Proof. unfold append_all. apply foldl_app. Qed.

Lemma seq_getitem_nat {A} (l : list A) (i : nat) (x : A) :
  l !! i = Some x → seq_getitem l (Z.of_nat i) = Ok x.
Proof.
  intros Hi. unfold seq_getitem. cbv zeta.
  rewrite (bool_decide_eq_false_2 (Z.of_nat i < 0)) by lia.
  rewrite (bool_decide_eq_true_2 (0 ≤ Z.of_nat i)) by lia.
  by rewrite Nat2Z.id, Hi.
Qed.

Lemma seq_getitem_nat_ok {A} (l : list A) (i : nat) (x : A) :
  seq_getitem l (Z.of_nat i) = Ok x → l !! i = Some x.
Proof.
  unfold seq_getitem. cbv zeta.
  rewrite (bool_decide_eq_false_2 (Z.of_nat i < 0)) by lia.
  rewrite (bool_decide_eq_true_2 (0 ≤ Z.of_nat i)) by lia.
  rewrite Nat2Z.id. destruct (l !! i); congruence.
Qed.

(** * Recording the results of one validation set *)

Section recording.
Context (cls : overrides) (tm : Model) (name : string).

Lemma record_metric_run (i : nat) (metric : string) (x : pyval) (w : world) :
  model (self w) = Some tm →
  metrics_names tm !! i = Some metric →
  record_metric cls (VStr name) i x w =
    (recorded_world
       (setdefault_append (metric_key (prefix cls) name metric) (Scalar x)
                          (history (self w)))
       (stdout w ++ if bool_decide (verbose (self w) = 1)
                    then [(metric_key (prefix cls) name metric, x)] else [])
       w,
     Ok tt).
Proof.
  intros Hm Hi. unfold record_metric. mrun.
  rewrite Hm. mrun. rewrite (seq_getitem_nat _ _ _ Hi).
  rewrite !string_app_assoc. fold (metric_key (prefix cls) name metric).
  unfold recorded_world. cbn [verbose set_history].
  case_bool_decide; mrun; rewrite ?app_nil_r; reflexivity.
Qed.

Lemma record_metrics_run (values : list pyval) (i : nat) (w : world) :
  model (self w) = Some tm →
  (i + length values ≤ length (metrics_names tm))%nat →
  record_metrics cls (VStr name) i values w =
    (recorded_world
       (append_all (metric_entries (prefix cls) name
                      (drop i (metrics_names tm)) values)
                   (history (self w)))
       (stdout w ++ printed (prefix cls) name (verbose (self w)) (drop i (metrics_names tm))
                            values) w,
     Ok tt).
Proof.
  revert i w. induction values as [|x values IH]; intros i w Hm Hlen.
  - simpl. unfold printed, metric_entries. rewrite !zip_with_nil_r.
    destruct (bool_decide _); simpl; rewrite ?app_nil_r;
      by rewrite recorded_world_id.
  - simpl in Hlen.
    destruct (lookup_lt_is_Some_2 (metrics_names tm) i) as [metric Hi];
      [lia|].
    rewrite (drop_S _ _ _ Hi).
    cbn [record_metrics]. rewrite bind_run.
    rewrite (record_metric_run i metric x w Hm Hi).
    rewrite IH; [|exact Hm|lia].
    rewrite recorded_world_twice.
    cbn [self stdout recorded_world history verbose set_history].
    f_equal. f_equal. unfold printed.
    case_bool_decide; simpl; rewrite ?app_nil_r, <- ?app_assoc; reflexivity.
Qed.
End recording.

(** * Steps that keep a relation between worlds *)

Section keeps.
Context (R : world → world → Prop).
Context (R_refl : ∀ w, R w w).
Context (R_trans : ∀ w1 w2 w3, R w1 w2 → R w2 w3 → R w1 w3).

Lemma keeps_ret {A} (a : A) : keeps R (mret a).
Proof using R_refl. intros w. apply R_refl. Qed.

Lemma keeps_raise {A} (e : exn) : keeps R (raise (A := A) e).
Proof using R_refl. intros w. apply R_refl. Qed.

Lemma keeps_lift {A} (r : outcome A) : keeps R (lift r).
Proof using R_refl. intros w. apply R_refl. Qed.

Lemma keeps_gets {A} (f : AdditionalValidationSets → A) : keeps R (gets f).
Proof using R_refl. intros w. apply R_refl. Qed.

Lemma keeps_assert (b : bool) : keeps R (assert b).
Proof using R_refl. destruct b; [apply keeps_ret | apply keeps_raise]. Qed.

Lemma keeps_bind {A B} (c : M A) (k : A → M B) :
  keeps R c → (∀ a, keeps R (k a)) → keeps R (c ≫= k).
Proof using R_trans.
  intros Hc Hk w. rewrite bind_run. specialize (Hc w).
  destruct (c w) as [w1 [a|e]]; simpl in *; [|done].
  eapply R_trans; [exact Hc | apply Hk].
Qed.

Lemma keeps_for_each {A} (body : A → M unit) (l : list A) :
  (∀ x, keeps R (body x)) → keeps R (for_each body l).
Proof using R_refl R_trans.
  intros Hbody. induction l as [|x l IH]; simpl.
  - apply keeps_ret.
  - apply keeps_bind; [apply Hbody | intros _; apply IH].
Qed.
End keeps.

Lemma evaluate_calls_app (l k : list (call * outcome pyval)) :
  evaluate_calls (l ++ k) = evaluate_calls l ++ evaluate_calls k.
Proof. apply List.filter_app. Qed.

Lemma quiet_refl (w : world) : quiet w w.
Proof.
  split; [done|]. split; [done|]. exists []. by rewrite app_nil_r.
Qed.

Lemma quiet_trans (w1 w2 w3 : world) : quiet w1 w2 → quiet w2 w3 → quiet w1 w3.
Proof.
  intros (Hs & Ho & new & Hc & Hn) (Hs' & Ho' & new' & Hc' & Hn').
  split; [congruence|]. split; [congruence|].
  exists (new ++ new'). rewrite Hc', Hc, app_assoc, evaluate_calls_app.
  by rewrite Hn, Hn'.
Qed.

Create HintDb keeps.
#[local] Hint Resolve quiet_refl quiet_trans : keeps.
#[local] Hint Resolve keeps_ret keeps_raise keeps_lift keeps_gets keeps_assert
  : keeps.

Lemma quiet_external (c : call) (f : genstore → genstore * outcome pyval) :
  is_evaluate c = false → keeps quiet (external c f).
Proof.
  intros Hc w. unfold external. destruct (f (gens w)) as [g' r]. simpl.
  split; [done|]. split; [done|]. exists [(c, r)]. split; [done|].
  unfold evaluate_calls. simpl. by rewrite Hc.
Qed.

Lemma quiet_py_next (it : pyval) : keeps quiet (py_next it).
Proof.
  destruct it; simpl; auto with keeps. by apply quiet_external.
Qed.

(** Split a bind, leaving the first step and the continuation as goals. *)
Ltac keeps_step :=
  lazymatch goal with
  | |- keeps quiet (_ ≫= _) =>
      apply (keeps_bind quiet quiet_trans); [|intros ?]
  | |- keeps quiet (external _ _) => apply quiet_external; reflexivity
  | |- keeps quiet (py_next _) => apply quiet_py_next
  | |- keeps _ (match ?x with _ => _ end) => destruct x
  | |- keeps _ _ => solve [auto with keeps]
  end.

Lemma quiet_predict_batches (m : Model) (generator : pyval) (steps : nat) :
  keeps quiet (predict_batches m generator steps).
Proof.
  induction steps as [|steps IH]; simpl; [auto with keeps|].
  repeat keeps_step.
Qed.

Lemma quiet_assert_same_length (p : PredictionsForOneEpoch) :
  keeps quiet (assert_same_length p).
Proof. unfold assert_same_length. repeat keeps_step. Qed.

Lemma quiet_reformatted_predictions (m : Model) (generator steps : pyval) :
  keeps quiet (reformatted_predictions m generator steps).
Proof.
  unfold reformatted_predictions. repeat keeps_step.
  apply quiet_predict_batches.
Qed.

Lemma quiet_generator_predictions (m : Model) (generator steps : pyval) :
  keeps quiet (generator_predictions m generator steps).
Proof.
  unfold generator_predictions. keeps_step.
  - apply quiet_reformatted_predictions.
  - apply quiet_assert_same_length.
Qed.

Lemma quiet_zipped_predictions (m : Model) (data targets : pyval) :
  keeps quiet (zipped_predictions m data targets).
Proof. unfold zipped_predictions. repeat keeps_step. Qed.

Lemma quiet_array_predictions (m : Model) (data targets : pyval) :
  keeps quiet (array_predictions m data targets).
Proof.
  unfold array_predictions. keeps_step.
  - apply quiet_zipped_predictions.
  - apply quiet_assert_same_length.
Qed.

(** * What evaluating one validation set does *)

(** The assertion lets a bundle through exactly when it is balanced. *)
Lemma assert_same_length_run (p : PredictionsForOneEpoch) (w : world) :
  assert_same_length p w =
    (w, if bool_decide (length (y_true p) = length (y_pred p))
        then Ok p else Raise AssertionError).
Proof. unfold assert_same_length. mrun. by destruct (bool_decide _). Qed.

Lemma assert_same_length_ok p w w' q :
  assert_same_length p w = (w', Ok q) →
  q = p ∧ w' = w ∧ length (y_pred p) = length (y_true p).
Proof.
  rewrite assert_same_length_run. case_bool_decide; [|intros [=]].
  intros [= <- <-]. done.
Qed.

Lemma generator_predictions_balanced m generator steps w w' p :
  generator_predictions m generator steps w = (w', Ok p) →
  length (y_pred p) = length (y_true p).
Proof.
  unfold generator_predictions. intros H.
  apply bind_ok in H as (q & w1 & _ & H).
  by apply assert_same_length_ok in H as (-> & _ & H).
Qed.

Lemma array_predictions_balanced m data targets w w' p :
  array_predictions m data targets w = (w', Ok p) →
  length (y_pred p) = length (y_true p).
Proof.
  unfold array_predictions. intros H.
  apply bind_ok in H as (q & w1 & _ & H).
  by apply assert_same_length_ok in H as (-> & _ & H).
Qed.

Lemma unpack_to_py (spec : ValidationSetSpec) :
  unpack_validation_set (to_py spec) = Ok (unpacked_of spec).
Proof. destruct spec; reflexivity. Qed.

(** After the evaluate call returned: quiet, and on success the returned
    values are handed over with a balanced bundle exactly when predictions
    are recorded. *)
Lemma after_evaluate (results : pyval)
    (predictions : M PredictionsForOneEpoch) (w w' : world) r :
  keeps quiet predictions →
  (∀ w w' p, predictions w = (w', Ok p) →
             length (y_pred p) = length (y_true p)) →
  with_predictions results predictions w = (w', r) →
  quiet w w' ∧
  ∀ res preds, r = Ok (res, preds) →
    res = results ∧
    ∃ p, preds = (if record_predictions (self w) then Some p else None) ∧
         length (y_pred p) = length (y_true p).
Proof.
  intros Hq Hb H. unfold with_predictions in H. rewrite bind_run in H.
  cbn [gets] in H. destruct (record_predictions (self w)).
  - rewrite bind_run in H. specialize (Hq w). specialize (Hb w).
    destruct (predictions w) as [w1 [p|e]]; simpl in *.
    + injection H as <- <-. split; [done|].
      intros res preds [= <- <-]. split; [done|]. exists p. eauto.
    + injection H as <- <-. split; [done|]. intros ?? [=].
  - injection H as <- <-. split; [apply quiet_refl|].
    intros res preds [= <- <-]. split; [done|].
    by exists {| y_pred := []; y_true := [] |}.
Qed.

(** An evaluate call, then the predictions when they are recorded. *)
Lemma call_then_predict c f (predictions : M PredictionsForOneEpoch) w w' r :
  keeps quiet predictions →
  (∀ w w' p, predictions w = (w', Ok p) →
             length (y_pred p) = length (y_true p)) →
  (results ← external c f; with_predictions results predictions) w = (w', r) →
  self w' = self w ∧ stdout w' = stdout w ∧
  ∃ ret new,
    calls w' = calls w ++ (c, ret) :: new ∧
    evaluate_calls new = [] ∧
    ∀ results preds, r = Ok (results, preds) →
      ret = Ok results ∧
      ∃ p, preds = (if record_predictions (self w) then Some p else None) ∧
           length (y_pred p) = length (y_true p).
Proof.
  intros Hq Hb H. rewrite bind_run in H. unfold external at 1 in H.
  destruct (f (gens w)) as [g' [results|e]].
  - apply after_evaluate in H as [(Hs & Ho & new & Hc & Hn) Hr]; [|done..].
    cbn [self stdout calls] in *. split; [done|]. split; [done|].
    exists (Ok results), new. rewrite Hc, <- app_assoc. split; [done|].
    split; [done|]. intros res preds Hres.
    destruct (Hr res preds Hres) as [-> Hp]. done.
  - injection H as <- <-. cbn [self stdout calls].
    split; [done|]. split; [done|].
    exists (Raise e), []. split; [done|]. split; [done|]. intros ?? [=].
Qed.

Lemma evaluate_set_run (m : Model) (spec : ValidationSetSpec) (w w' : world) r :
  evaluate_set (Some m) (unpacked_of spec) w = (w', r) →
  self w' = self w ∧ stdout w' = stdout w ∧
  ∃ ret new,
    calls w' = calls w ++ (expected_call (batch_size (self w)) spec, ret) :: new ∧
    evaluate_calls new = [] ∧
    ∀ results preds, r = Ok (results, preds) →
      ret = Ok results ∧
      ∃ p, preds = (if record_predictions (self w) then Some p else None) ∧
           length (y_pred p) = length (y_true p).
Proof.
  unfold evaluate_set.
  destruct spec as [g steps name|data targets name|data targets weights name];
    cbn [unpacked_of validation_generator validation_steps validation_data
         validation_targets sample_weights expected_call].
  - apply call_then_predict;
      [apply quiet_generator_predictions
      |apply generator_predictions_balanced].
  - rewrite bind_run. cbn [gets].
    apply call_then_predict;
      [apply quiet_array_predictions | apply array_predictions_balanced].
  - rewrite bind_run. cbn [gets].
    apply call_then_predict;
      [apply quiet_array_predictions | apply array_predictions_balanced].
Qed.

(** * What recording one validation set does *)

Lemma records_refl (w : world) : records w w.
Proof.
  exists [], (stdout w). split; [|constructor].
  symmetry. apply recorded_world_id.
Qed.

Lemma records_trans (w1 w2 w3 : world) :
  records w1 w2 → records w2 w3 → records w1 w3.
Proof.
  intros (l & out & -> & Hl) (k & out' & -> & Hk).
  exists (l ++ k), out'. split.
  - by rewrite append_all_app.
  - by apply Forall_app.
Qed.

#[local] Hint Resolve records_refl : keeps.

Lemma records_history_append (k : string) (v : recorded) :
  balanced v → keeps records (history_append k v).
Proof.
  intros Hv w. exists [(k, v)], (stdout w). split; [done|].
  by repeat constructor.
Qed.

Lemma records_print (k : string) (v : pyval) : keeps records (print k v).
Proof.
  intros w. exists [], (stdout w ++ [(k, v)]). split; [|constructor].
  destruct w as [[] ? ? ?]; reflexivity.
Qed.

Ltac records_step :=
  lazymatch goal with
  | |- keeps records (_ ≫= _) =>
      apply (keeps_bind records records_trans); [|intros ?]
  | |- keeps records (history_append _ _) =>
      apply records_history_append; try exact I
  | |- keeps records (print _ _) => apply records_print
  | |- keeps _ (match ?x with _ => _ end) => destruct x
  | |- keeps _ (if ?x then _ else _) => destruct x
  | |- keeps _ _ => solve [auto with keeps]
  end.

Lemma records_record_metric cls name i result :
  keeps records (record_metric cls name i result).
Proof. unfold record_metric. repeat records_step. Qed.

Lemma records_record_metrics cls name results i :
  keeps records (record_metrics cls name i results).
Proof.
  revert i. induction results as [|x results IH]; intros i; simpl.
  - auto with keeps.
  - records_step; [apply records_record_metric | apply IH].
Qed.

Lemma records_record_set cls name results predictions :
  (∀ p, predictions = Some p → length (y_pred p) = length (y_true p)) →
  keeps records (record_set cls name results predictions).
Proof.
  intros Hp. unfold record_set. records_step; [auto with keeps|].
  records_step.
  - destruct a; [|auto with keeps].
    records_step; [auto with keeps|].
    destruct predictions as [p|]; [|auto with keeps].
    apply records_history_append. simpl. by apply Hp.
  - records_step; [auto with keeps|]. apply records_record_metrics.
Qed.



Lemma record_metrics_ok_length cls tm name values i w w' :
  model (self w) = Some tm →
  (i ≤ length (metrics_names tm))%nat →
  record_metrics cls (VStr name) i values w = (w', Ok tt) →
  (i + length values ≤ length (metrics_names tm))%nat.
Proof.
  revert i w. induction values as [|x values IH]; intros i w Hm Hi0 H; simpl.
  - lia.
  - cbn [record_metrics] in H. apply bind_ok in H as ([] & w1 & Hx & H).
    assert (is_Some (metrics_names tm !! i)) as [metric Hi].
    { unfold record_metric in Hx. revert Hx. mrun. rewrite Hm. mrun.
      destruct (seq_getitem (metrics_names tm) (Z.of_nat i)) as [metric|e] eqn:E;
        [|intros [=]].
      intros _. exists metric. by apply seq_getitem_nat_ok. }
    rewrite (record_metric_run cls tm name i metric x w Hm Hi) in Hx.
    injection Hx as <-. apply lookup_lt_Some in Hi.
    apply IH in H; [lia|exact Hm|lia].
Qed.

Lemma record_metrics_ok cls tm name values w w' :
  model (self w) = Some tm →
  record_metrics cls (VStr name) 0 values w = (w', Ok tt) ↔
  (length values ≤ length (metrics_names tm))%nat ∧
  w' = recorded_world
         (append_all (metric_entries (prefix cls) name (metrics_names tm) values)
                     (history (self w)))
         (stdout w ++ printed (prefix cls) name (verbose (self w))
                              (metrics_names tm) values) w.
Proof.
  intros Hm. split.
  - intros H.
    pose proof (record_metrics_ok_length _ _ _ _ _ _ _ Hm (Nat.le_0_l _) H)
      as Hlen.
    split; [simpl in Hlen; lia|].
    rewrite (record_metrics_run cls tm name values 0 w Hm Hlen) in H.
    injection H as <-. by rewrite drop_0.
  - intros [Hlen ->].
    rewrite (record_metrics_run cls tm name values 0 w Hm) by (simpl; lia).
    by rewrite drop_0.
Qed.

(** Recording succeeds exactly when the results can be iterated and there
    is a metric name for each of them; it then appends the entries of the
    validation set. *)
Lemma record_set_ok cls tm name results p w w' :
  model (self w) = Some tm →
  record_set cls (VStr name) results
    (if record_predictions (self w) then Some p else None) w = (w', Ok tt) ↔
  ∃ values,
    py_iter results = Ok values ∧
    (length values ≤ length (metrics_names tm))%nat ∧
    w' = recorded_world
           (append_all (set_entries (prefix cls) name (metrics_names tm)
                          (record_predictions (self w)) p values)
                       (history (self w)))
           (stdout w ++ printed (prefix cls) name (verbose (self w))
                                (metrics_names tm) values) w.
Proof.
  intros Hm. unfold record_set. rewrite bind_run. cbn [gets].
  unfold set_entries.
  destruct (record_predictions (self w)) eqn:Hrp; mrun;
    rewrite ?string_app_assoc;
    (destruct (py_iter results) as [values|e];
       [|split; [done|intros (?&?&_); done]]).
  - rewrite record_metrics_ok by exact Hm. split.
    + intros [Hlen ->]. exists values. done.
    + intros (? & [= <-] & Hlen & ->). done.
  - replace w with (recorded_world (history (self w)) (stdout w) w) at 1
      by apply recorded_world_id.
    rewrite record_metrics_ok by exact Hm. split.
    + intros [Hlen ->]. exists values. done.
    + intros (? & [= <-] & Hlen & ->). done.
Qed.

(** Lines 120-123 first, then the loop of lines 125-129 on the items of
    the results. *)
Lemma record_set_split cls name results p w :
  record_set cls (VStr name) results
    (if record_predictions (self w) then Some p else None) w =
    let w1 :=
      recorded_world
        (append_all (if record_predictions (self w)
                     then [(predictions_key (prefix cls) name, Predictions p)]
                     else [])
                    (history (self w)))
        (stdout w) w in
    match py_iter results with
    | Ok values => record_metrics cls (VStr name) 0 values w1
    | Raise e => (w1, Raise e)
    end.
Proof.
  unfold record_set. rewrite bind_run. cbn [gets]. cbv zeta.
  destruct (record_predictions (self w)) eqn:Hrp; mrun;
    rewrite ?string_app_assoc.
  - reflexivity.
  - unfold append_all. cbn [foldl]. by rewrite recorded_world_id.
Qed.

(** * Predictions from a generator, example by example *)

Lemma traverse_ok {A B} (f : A → outcome B) (l : list A) (ys : list B) :
  traverse f l = Ok ys ↔ Forall2 (fun x y => f x = Ok y) l ys.
Proof.
  revert ys. induction l as [|x l IH]; intros ys; simpl.
  - split; [intros [= <-]; constructor | by inversion 1].
  - destruct (f x) as [y|e] eqn:Hx; simpl.
    + destruct (traverse f l) as [ys'|e] eqn:Hl; simpl.
      * split.
        -- intros [= <-]. constructor; [done|]. by apply IH.
        -- inversion 1 as [|???? Hy Hys]; subst.
           apply IH in Hys. congruence.
      * split; [done|]. inversion 1 as [|???? Hy Hys]; subst.
        apply IH in Hys. done.
    + split; [done|]. inversion 1; congruence.
Qed.

Lemma concat_lookup_offset {A} (ls : list (list A)) (i : nat) (l : list A)
    (j : nat) :
  ls !! i = Some l → (j < length l)%nat →
  concat ls !! (sum_list (length <$> take i ls) + j)%nat = l !! j.
Proof.
  revert i. induction ls as [|l0 ls IH]; intros i Hi Hj; [done|].
  destruct i as [|i].
  - injection Hi as ->. simpl. by rewrite lookup_app_l.
  - change (sum_list (length <$> take (S i) (l0 :: ls)) + j)%nat
      with (length l0 + sum_list (length <$> take i ls) + j)%nat.
    cbn [concat]. rewrite lookup_app_r by lia.
    replace (length l0 + sum_list (length <$> take i ls) + j - length l0)%nat
      with (sum_list (length <$> take i ls) + j)%nat by lia.
    by apply IH.
Qed.

Lemma length_concat_sum {A} (ls : list (list A)) :
  length (concat ls) = sum_list (length <$> ls).
Proof.
  induction ls as [|l ls IH]; simpl; [done|]. by rewrite length_app, IH.
Qed.

Lemma example_row_ok (outputs : pyval) (j : nat) (row : pyval) :
  example_row outputs j = Ok row →
  ∃ items col,
    py_iter outputs = Ok items ∧ row = VSeq col ∧
    Forall2 (fun output x => py_getitem output (Z.of_nat j) = Ok x) items col.
Proof.
  unfold example_row. destruct (py_iter outputs) as [items|e]; cbn; [|done].
  destruct (traverse _ items) as [col|e] eqn:Ht; cbn; [|done].
  intros [= <-]. exists items, col. split; [done|]. split; [done|].
  by apply traverse_ok.
Qed.

Lemma first_shape0_batch_length (outputs : pyval) (n : nat) :
  first_shape0 outputs = Ok n → batch_length outputs = n.
Proof.
  destruct outputs as [ | | |s|[|x l]|[|x l]| ]; try done.
  - unfold first_shape0. destruct (py_getitem (VStr s) 0) as [first|e] eqn:Hf;
      [|done].
    destruct s; [done|]. injection Hf as <-. done.
  - destruct x; try done. by intros [= <-].
  - destruct x; try done. by intros [= <-].
Qed.

(** The rows of one batch: as many as the batch is long, the [j]-th one
    being the [j]-th example. *)
Lemma reformat_batch_ok (outputs : pyval) (rows : list pyval) :
  reformat_batch outputs = Ok rows →
  length rows = batch_length outputs ∧
  ∀ j, (j < batch_length outputs)%nat →
       ∃ row, example_row outputs j = Ok row ∧ rows !! j = Some row.
Proof.
  unfold reformat_batch.
  destruct (first_shape0 outputs) as [n|e] eqn:Hn; simpl; [|done].
  rewrite (first_shape0_batch_length _ _ Hn).
  intros H. apply traverse_ok in H.
  pose proof (Forall2_length _ _ _ H) as Hlen. rewrite length_seq in Hlen.
  split; [done|]. intros j Hj.
  destruct (Forall2_lookup_l _ _ _ j j H) as (row & Hrow & Hex).
  { by apply lookup_seq_lt. }
  exists row. done.
Qed.

Lemma reformat_per_example (batches rows : list pyval) :
  reformat batches = Ok rows → per_example batches rows.
Proof.
  unfold reformat.
  destruct (traverse reformat_batch batches) as [rowss|e] eqn:Ht; simpl;
    [|done].
  intros [= <-]. apply traverse_ok in Ht.
  assert (∀ i, length <$> take i rowss = batch_length <$> take i batches)
    as Hlens.
  { intros i. apply (Forall2_take _ _ _ i) in Ht.
    generalize dependent (take i rowss). generalize (take i batches).
    induction 1 as [|b rs bs rss Hb _ IH]; [done|].
    apply reformat_batch_ok in Hb as [Hb _].
    rewrite !fmap_cons, Hb, IH. done. }
  split.
  - rewrite length_concat_sum.
    specialize (Hlens (length rowss)). rewrite firstn_all in Hlens.
    rewrite Hlens, firstn_all2; [done|].
    by rewrite (Forall2_length _ _ _ Ht).
  - intros i outputs j Hi Hj.
    destruct (Forall2_lookup_l _ _ _ i outputs Ht Hi) as (rs & Hrs & Hb).
    apply reformat_batch_ok in Hb as [Hlen Hb].
    destruct (Hb j Hj) as (row & Hrow & Hj').
    exists row. split; [by apply example_row_ok|].
    rewrite <- Hlens, concat_lookup_offset with (l := rs); [done..|lia].
Qed.

Lemma external_ok c f w w' v :
  external c f w = (w', Ok v) →
  self w' = self w ∧ stdout w' = stdout w ∧ calls w' = calls w ++ [(c, Ok v)].
Proof.
  unfold external. destruct (f (gens w)) as [g' r].
  intros [= <- ->]. done.
Qed.

Lemma py_next_ok it w w' v :
  py_next it w = (w', Ok v) →
  self w' = self w ∧ stdout w' = stdout w ∧
  calls w' = calls w ++ [(CallNext it, Ok v)].
Proof. destruct it; try (intros [=]; fail). apply external_ok. Qed.

(** The rounds of lines 80-87, in the order the batches were drawn. *)
Lemma predict_batches_ok m generator n w w' preds trues :
  predict_batches m generator n w = (w', Ok (preds, trues)) →
  ∃ batches,
    length batches = n ∧
    Forall batch_ok batches ∧
    preds = predicted <$> batches ∧
    trues = targets <$> batches ∧
    self w' = self w ∧ stdout w' = stdout w ∧
    calls w' = calls w ++ concat (batch_calls generator <$> batches).
Proof.
  revert w preds trues. induction n as [|n IH]; intros w preds trues H.
  - injection H as <- <- <-. exists []. simpl. by rewrite app_nil_r.
  - cbn [predict_batches] in H.
    apply bind_ok in H as (b & w1 & Hnext & H).
    apply py_next_ok in Hnext as (Hs1 & Ho1 & Hc1).
    apply bind_ok in H as (xs & ? & [Hxs ->]%lift_ok & H).
    apply bind_ok in H as (ys & ? & [Hys ->]%lift_ok & H).
    apply bind_ok in H as (size & ? & [Hsize ->]%lift_ok & H).
    apply bind_ok in H as (p & w2 & Hp & H).
    apply external_ok in Hp as (Hs2 & Ho2 & Hc2).
    apply bind_ok in H as ([ps ts] & w3 & Hrest & H).
    injection H as <- <- <-.
    apply IH in Hrest as (batches & Hlen & Hok & -> & -> & Hs3 & Ho3 & Hc3).
    exists ({| batch := b; inputs := xs; targets := ys; predicted := p |}
              :: batches).
    split; [simpl; by rewrite Hlen|]. split; [by constructor|].
    split; [done|]. split; [done|].
    split; [congruence|]. split; [congruence|].
    rewrite Hc3, Hc2, Hc1, <- !app_assoc. cbn [fmap list_fmap concat].
    unfold batch_calls at 2. cbn [batch inputs predicted].
    by rewrite (first_shape0_batch_length _ _ Hsize).
Qed.

(** Lines 76-98: as many rounds as there are steps, and both sequences in
    per-example order. *)
Lemma reformatted_predictions_ok m generator steps w w' p :
  reformatted_predictions m generator (VInt steps) w = (w', Ok p) →
  ∃ batches,
    length batches = Z.to_nat steps ∧
    Forall batch_ok batches ∧
    self w' = self w ∧ stdout w' = stdout w ∧
    calls w' = calls w ++ concat (batch_calls generator <$> batches) ∧
    per_example (predicted <$> batches) (y_pred p) ∧
    per_example (targets <$> batches) (y_true p).
Proof.
  unfold reformatted_predictions. intros H.
  apply bind_ok in H as (n & ? & [[= <-] ->]%lift_ok & H).
  apply bind_ok in H as ([preds trues] & w1 & Hb & H).
  apply bind_ok in H as (yp & ? & [Hyp ->]%lift_ok & H).
  apply bind_ok in H as (yt & ? & [Hyt ->]%lift_ok & H).
  injection H as <- <-.
  apply predict_batches_ok in Hb
    as (batches & Hlen & Hok & -> & -> & Hs & Ho & Hc).
  exists batches. repeat (split; [done|]).
  split; by apply reformat_per_example.
Qed.

(** The evaluation of a generator-shaped set with predictions recorded. *)
Lemma evaluate_set_generator_ok m g steps name w w' results p :
  record_predictions (self w) = true →
  evaluate_set (Some m) (unpacked_of (GeneratorSet g steps name)) w
    = (w', Ok (results, Some p)) →
  ∃ batches,
    length batches = Z.to_nat steps ∧
    Forall batch_ok batches ∧
    calls w' = calls w ++
      (CallEvaluateGenerator (VGen g) (VInt steps), Ok results)
        :: concat (batch_calls (VGen g) <$> batches) ∧
    per_example (predicted <$> batches) (y_pred p) ∧
    per_example (targets <$> batches) (y_true p).
Proof.
  intros Hrp H. unfold evaluate_set in H.
  cbn [unpacked_of validation_generator validation_steps] in H.
  apply bind_ok in H as (res & w1 & Hev & H).
  apply external_ok in Hev as (Hs1 & Ho1 & Hc1).
  unfold with_predictions in H.
  apply bind_ok in H as (record & ? & [= <- <-] & H).
  rewrite Hs1, Hrp in H.
  apply bind_ok in H as (q & w2 & Hq & H). injection H as <- <- <-.
  unfold generator_predictions in Hq.
  apply bind_ok in Hq as (q' & w3 & Hq' & Hq).
  apply assert_same_length_ok in Hq as (-> & -> & _).
  apply reformatted_predictions_ok in Hq'
    as (batches & Hlen & Hok & Hs & Ho & Hc & Hpp & Hpt).
  exists batches. repeat (split; [done|]). split; [|done].
  by rewrite Hc, Hc1, <- app_assoc.
Qed.

(** * The loop body *)

Lemma validate_run cls model_ spec w :
  validate cls model_ (to_py spec) w =
    match evaluate_set model_ (unpacked_of spec) w with
    | (w1, Ok (results, predictions)) =>
        record_set cls (VStr (spec_name spec)) results predictions w1
    | (w1, Raise e) => (w1, Raise e)
    end.
Proof.
  unfold validate. rewrite bind_run. unfold lift. rewrite unpack_to_py.
  rewrite bind_run.
  destruct (evaluate_set model_ (unpacked_of spec) w) as [w1 [[res preds]|e]];
    [|done].
  by destruct spec.
Qed.

(** A successful pass over one validation set with a model to evaluate. *)
Lemma validate_ok cls m tm spec w w' :
  model (self w) = Some tm →
  validate cls (Some m) (to_py spec) w = (w', Ok tt) →
  ∃ ev,
    evaluation_of (batch_size (self w)) (metrics_names tm)
                  (record_predictions (self w)) spec ev ∧
    calls w' = calls w ++ log ev ∧
    self w' =
      set_history
        (append_all (evaluation_entries (prefix cls) (metrics_names tm)
                       (record_predictions (self w)) spec ev)
                    (history (self w)))
        (self w) ∧
    stdout w' =
      stdout w ++ printed (prefix cls) (spec_name spec) (verbose (self w))
                          (metrics_names tm) (values ev).
Proof.
  intros Hm H. rewrite validate_run in H.
  destruct (evaluate_set (Some m) (unpacked_of spec) w)
    as [w1 [[results preds]|e]] eqn:He; [|done].
  pose proof He as He'.
  apply evaluate_set_run in He as (Hs & Ho & ret & new & Hc & Hn & Hr).
  destruct (Hr results preds eq_refl) as (-> & p & -> & Hp).
  rewrite <- Hs in H at 1.
  apply (record_set_ok cls tm) in H as (vals & Hit & Hlen & ->);
    [|by rewrite Hs].
  exists {| returned := results; values := vals; bundle := p;
            log := (expected_call (batch_size (self w)) spec, Ok results)
                     :: new |}.
  split; [|split; [done|cbn [self stdout recorded_world values];
                       by rewrite Hs, Ho]].
  split; [done|]. split.
  - unfold evaluate_calls in *. cbn [log List.filter fst].
    replace (is_evaluate (expected_call (batch_size (self w)) spec))
      with true by (by destruct spec).
    by rewrite Hn.
  - intros Hrp g steps name ->. rewrite Hrp in He'.
    apply evaluate_set_generator_ok in He'
      as (batches & Hlenb & Hok & Hc' & Hpp & Hpt); [|done].
    exists batches. split; [done|]. split; [done|]. cbn [log bundle returned].
    split; [|done].
    rewrite Hc in Hc'. apply app_inv_head in Hc'. exact Hc'.
Qed.

(** * The calls really made *)

Lemma run_calls_app (m : Model) (st : genstore) (cs1 cs2 : list call) :
  run_calls m st (cs1 ++ cs2) =
    let '(st1, l1) := run_calls m st cs1 in
    let '(st2, l2) := run_calls m st1 cs2 in
    (st2, l1 ++ l2).
Proof.
  revert st. induction cs1 as [|c cs1 IH]; intros st; simpl.
  - by destruct (run_calls m st cs2).
  - destruct (perform m c st) as [st1 r]. rewrite IH.
    destruct (run_calls m st1 cs1) as [st2 l1].
    by destruct (run_calls m st2 cs2).
Qed.

Lemma performed_refl (m : Model) (w : world) : performed m w w.
Proof. exists []. by rewrite app_nil_r. Qed.

Lemma performed_trans (m : Model) (w1 w2 w3 : world) :
  performed m w1 w2 → performed m w2 w3 → performed m w1 w3.
Proof.
  intros (l & Hl & Hrl) (k & Hk & Hrk). exists (l ++ k).
  split; [by rewrite Hk, Hl, app_assoc|].
  by rewrite fmap_app, run_calls_app, Hrl, Hrk.
Qed.

Lemma performed_same (m : Model) (w w' : world) :
  calls w' = calls w → gens w' = gens w → performed m w w'.
Proof. intros Hc Hg. exists []. by rewrite app_nil_r, Hg. Qed.

#[local] Hint Resolve performed_refl : keeps.

Lemma performed_external (m : Model) (c : call) :
  keeps (performed m) (external c (perform m c)).
Proof.
  intros w. unfold external.
  destruct (perform m c (gens w)) as [g' r] eqn:E.
  exists [(c, r)]. split; [done|]. simpl. by rewrite E.
Qed.

Lemma performed_py_next (m : Model) (it : pyval) :
  keeps (performed m) (py_next it).
Proof.
  destruct it; simpl; auto with keeps.
  apply (performed_external m (CallNext (VGen g))).
Qed.

Lemma performed_modify_self (m : Model) f : keeps (performed m) (modify_self f).
Proof. intros w. by apply performed_same. Qed.

Lemma performed_print (m : Model) k v : keeps (performed m) (print k v).
Proof. intros w. by apply performed_same. Qed.

Ltac performed_step m :=
  lazymatch goal with
  | |- keeps (performed m) (_ ≫= _) =>
      apply (keeps_bind (performed m) (performed_trans m)); [|intros ?]
  | |- keeps (performed m) (external ?c _) => apply (performed_external m c)
  | |- keeps (performed m) (py_next _) => apply performed_py_next
  | |- keeps (performed m) (history_append _ _) => apply performed_modify_self
  | |- keeps (performed m) (print _ _) => apply performed_print
  | |- keeps _ (match ?x with _ => _ end) => destruct x
  | |- keeps _ (if ?x then _ else _) => destruct x
  | |- keeps _ _ => solve [auto with keeps]
  end.

Lemma performed_predict_batches (m : Model) (generator : pyval) (steps : nat) :
  keeps (performed m) (predict_batches m generator steps).
Proof.
  induction steps as [|steps IH]; simpl; [auto with keeps|].
  repeat performed_step m.
Qed.

Lemma performed_generator_predictions (m : Model) (generator steps : pyval) :
  keeps (performed m) (generator_predictions m generator steps).
Proof.
  unfold generator_predictions, reformatted_predictions, assert_same_length.
  repeat performed_step m. apply performed_predict_batches.
Qed.

Lemma performed_array_predictions (m : Model) (data targets : pyval) :
  keeps (performed m) (array_predictions m data targets).
Proof.
  unfold array_predictions, zipped_predictions, assert_same_length.
  repeat performed_step m.
Qed.

Lemma performed_with_predictions (m : Model) results predictions :
  keeps (performed m) predictions →
  keeps (performed m) (with_predictions results predictions).
Proof. intros Hp. unfold with_predictions. repeat performed_step m. Qed.

Lemma performed_evaluate_set (m : Model) (model_ : option Model) (u : unpacked) :
  model_ = Some m ∨ model_ = None →
  keeps (performed m) (evaluate_set model_ u).
Proof.
  intros [-> | ->]; unfold evaluate_set.
  - destruct (validation_generator u);
      try (performed_step m;
           [performed_step m
           |apply performed_with_predictions,
              performed_generator_predictions]).
    performed_step m; [auto with keeps|].
    performed_step m; [performed_step m|].
    apply performed_with_predictions, performed_array_predictions.
  - performed_step m; [auto with keeps|]. destruct a; [|auto with keeps].
    apply performed_with_predictions. auto with keeps.
Qed.

Lemma performed_record_metrics (m : Model) cls name results i :
  keeps (performed m) (record_metrics cls name i results).
Proof.
  revert i. induction results as [|x results IH]; intros i; simpl.
  - auto with keeps.
  - performed_step m; [|apply IH]. unfold record_metric.
    repeat performed_step m.
Qed.

Lemma performed_record_set (m : Model) cls name results predictions :
  keeps (performed m) (record_set cls name results predictions).
Proof.
  unfold record_set. performed_step m; [auto with keeps|].
  performed_step m.
  - destruct a; [|auto with keeps]. repeat performed_step m.
  - performed_step m; [auto with keeps|]. apply performed_record_metrics.
Qed.

(** Whatever the outcome of the pass over one validation set, the calls it
    logged are those of the model to evaluate, carried out in order. *)
Lemma performed_validate (m : Model) cls (model_ : option Model) v :
  model_ = Some m ∨ model_ = None →
  keeps (performed m) (validate cls model_ v).
Proof.
  intros Hm. unfold validate. performed_step m; [auto with keeps|].
  performed_step m; [by apply performed_evaluate_set|].
  destruct a0. apply performed_record_set.
Qed.

Lemma performed_for_each_validate (m : Model) cls (model_ : option Model) sets :
  model_ = Some m ∨ model_ = None →
  keeps (performed m) (for_each (validate cls model_) sets).
Proof.
  intros Hm.
  apply (keeps_for_each (performed m) (performed_refl m) (performed_trans m)).
  intros v. by apply performed_validate.
Qed.

(** * The loop over the validation sets *)

Lemma for_each_validate_ok cls m tm specs w w' :
  model (self w) = Some tm →
  for_each (validate cls (Some m)) (to_py <$> specs) w = (w', Ok tt) →
  ∃ evs,
    Forall2 (evaluation_of (batch_size (self w)) (metrics_names tm)
                           (record_predictions (self w))) specs evs ∧
    calls w' = calls w ++ concat (log <$> evs) ∧
    self w' =
      set_history
        (append_all
           (concat (zip_with (evaluation_entries (prefix cls) (metrics_names tm)
                                (record_predictions (self w))) specs evs))
           (history (self w)))
        (self w) ∧
    stdout w' =
      stdout w ++
        concat (zip_with
                  (fun spec ev =>
                     printed (prefix cls) (spec_name spec) (verbose (self w))
                             (metrics_names tm) (values ev))
                  specs evs).
Proof.
  revert w. induction specs as [|spec specs IH]; intros w Hm H.
  - injection H as <-. exists []. simpl. rewrite !app_nil_r.
    repeat split; try done. by destruct (self w).
  - cbn [fmap list_fmap for_each] in H.
    apply bind_ok in H as ([] & w1 & H1 & H).
    apply (validate_ok cls m tm) in H1 as (ev & Hev & Hc1 & Hs1 & Ho1); [|done].
    apply IH in H as (evs & Hevs & Hc & Hs & Ho); [|by rewrite Hs1].
    exists (ev :: evs). rewrite Hs1 in Hevs. split; [by constructor|].
    split; [|split].
    + rewrite Hc, Hc1, <- app_assoc. reflexivity.
    + rewrite Hs, Hs1. cbn [zip_with concat]. rewrite append_all_app.
      reflexivity.
    + rewrite Ho, Ho1, Hs1, <- app_assoc. reflexivity.
Qed.

(** * The epoch number and the original logs *)

Lemma record_logs_run (items : list (string * pyval)) (w : world) :
  record_logs items w =
    (recorded_world
       (append_all ((fun '(k, v) => (k, Scalar v)) <$> items) (history (self w)))
       (stdout w) w,
     Ok tt).
Proof.
  unfold record_logs. revert w.
  induction items as [|[k v] items IH]; intros w; simpl.
  - by rewrite recorded_world_id.
  - rewrite bind_run. mrun. rewrite IH. reflexivity.
Qed.

(** The world after lines 41-47. *)
Lemma record_epoch_and_logs_run (epoch_ : Z) (logs : option (gmap string pyval))
    (w : world) :
  record_epoch_and_logs epoch_ logs w =
    ({| self :=
          set_history
            (if record_original_history (self w)
             then append_all (log_entries (logs_or_empty logs)) (history (self w))
             else history (self w))
            (set_epoch (epoch (self w) ++ [epoch_]) (self w));
        gens := gens w; calls := calls w; stdout := stdout w |},
     Ok tt).
Proof.
  unfold record_epoch_and_logs. rewrite bind_run. mrun.
  cbn [record_original_history set_epoch].
  destruct (record_original_history (self w)).
  - rewrite record_logs_run. reflexivity.
  - by destruct (self w).
Qed.

Lemma on_epoch_end_run cls epoch_ logs w :
  on_epoch_end cls epoch_ logs w =
    evaluate_validation_sets cls (record_epoch_and_logs epoch_ logs w).1.
Proof.
  unfold on_epoch_end. rewrite bind_run.
  by rewrite record_epoch_and_logs_run.
Qed.

Lemma append_all_lookup (entries : list (string * recorded))
    (h : gmap string (list recorded)) (k : string) :
  NoDup entries.*1 →
  append_all entries h !! k =
    match (list_to_map entries : gmap string recorded) !! k with
    | Some v => Some (default [] (h !! k) ++ [v])
    | None => h !! k
    end.
Proof.
  revert h. induction entries as [|[k0 v0] entries IH]; intros h Hnd.
  - cbn [list_to_map foldr]. by rewrite lookup_empty.
  - apply NoDup_cons in Hnd as [Hk0 Hnd].
    change (append_all ((k0, v0) :: entries) h)
      with (append_all entries (setdefault_append k0 v0 h)).
    rewrite IH by done. cbn [list_to_map foldr]. unfold setdefault_append.
    destruct (decide (k0 = k)) as [->|Hne].
    + rewrite !lookup_insert_eq.
      by rewrite (not_elem_of_list_to_map_1 _ _ Hk0).
    + by rewrite !lookup_insert_ne.
Qed.

Lemma log_entries_lookup (logs : gmap string pyval)
    (h : gmap string (list recorded)) (k : string) :
  append_all (log_entries logs) h !! k =
    match logs !! k with
    | Some v => Some (default [] (h !! k) ++ [Scalar v])
    | None => h !! k
    end.
Proof.
  assert (log_entries logs = prod_map id Scalar <$> map_to_list logs) as Heq.
  { unfold log_entries. apply list_fmap_ext. by intros ? [??]. }
  rewrite append_all_lookup.
  - rewrite Heq, list_to_map_fmap, list_to_map_to_list, lookup_fmap.
    by destruct (logs !! k).
  - rewrite Heq, <- list_fmap_compose.
    replace (fst ∘ prod_map id Scalar) with (fst : string * pyval → string).
    + apply NoDup_fst_map_to_list.
    + reflexivity.
Qed.

(** The history after a sequence of appends, key by key. *)
Lemma append_all_history_after (entries : list (string * recorded))
    (h : gmap string (list recorded)) :
  history_after h entries (append_all entries h).
Proof.
  intros k. revert h. unfold appended_under.
  induction entries as [|[k0 v0] entries IH]; intros h; [done|].
  change (append_all ((k0, v0) :: entries) h)
    with (append_all entries (setdefault_append k0 v0 h)).
  rewrite IH. unfold setdefault_append.
  destruct (decide (k0 = k)) as [->|Hne].
  - rewrite lookup_insert_eq, filter_cons_True by done.
    cbn [fmap list_fmap snd extended].
    destruct ((filter _ entries).*2) as [|v vs]; simpl.
    + done.
    + by rewrite <- app_assoc.
  - rewrite lookup_insert_ne, filter_cons_False by done. done.
Qed.

Lemma append_all_extends (entries : list (string * recorded))
    (h : gmap string (list recorded)) :
  extends h (append_all entries h).
Proof.
  revert h. induction entries as [|[k0 v0] entries IH]; intros h k l Hkl.
  - exists []. by rewrite app_nil_r.
  - change (append_all ((k0, v0) :: entries) h)
      with (append_all entries (setdefault_append k0 v0 h)).
    destruct (decide (k0 = k)) as [->|Hne].
    + destruct (IH (setdefault_append k v0 h) k (l ++ [v0])) as [more Hmore].
      { unfold setdefault_append. by rewrite lookup_insert_eq, Hkl. }
      exists (v0 :: more). by rewrite Hmore, <- app_assoc.
    + apply IH. unfold setdefault_append. by rewrite lookup_insert_ne.
Qed.

(** C10. With [record_original_history] on and [logs] a dictionary, every
    pair of [logs] is appended to the history under its own key and the other
    keys are left as they were; with [logs] being [None], or with
    [record_original_history] off, the history is left as it was.  The
    validation sets are evaluated from the world so reached, in which no
    external call has been made yet. *)
Theorem on_epoch_end_records_logs cls epoch_ logs w :
  ∃ w1,
    on_epoch_end cls epoch_ logs w = evaluate_validation_sets cls w1 ∧
    calls w1 = calls w ∧ gens w1 = gens w ∧ stdout w1 = stdout w ∧
    self w1 = set_history (history (self w1))
                (set_epoch (epoch (self w) ++ [epoch_]) (self w)) ∧
    ∀ k,
      history (self w1) !! k =
        match record_original_history (self w), logs with
        | true, Some l =>
            match l !! k with
            | Some v => Some (default [] (history (self w) !! k) ++ [Scalar v])
            | None => history (self w) !! k
            end
        | _, _ => history (self w) !! k
        end.
Proof.
  exists (record_epoch_and_logs epoch_ logs w).1.
  split; [apply on_epoch_end_run|].
  rewrite record_epoch_and_logs_run. cbn [fst self gens calls stdout].
  repeat split. intros k. cbn [history set_history].
  destruct (record_original_history (self w)); [|done].
  rewrite log_entries_lookup.
  destruct logs as [l|]; [done|]. cbn. by rewrite lookup_empty.
Qed.

(** * The whole of [on_epoch_end] *)

Lemma after_logs_config epoch_ logs w :
  validation_sets (self (after_logs epoch_ logs w)) = validation_sets (self w) ∧
  model (self (after_logs epoch_ logs w)) = model (self w) ∧
  batch_size (self (after_logs epoch_ logs w)) = batch_size (self w) ∧
  record_predictions (self (after_logs epoch_ logs w))
    = record_predictions (self w).
Proof. unfold after_logs. by rewrite record_epoch_and_logs_run. Qed.

Lemma after_logs_calls epoch_ logs w :
  calls (after_logs epoch_ logs w) = calls w.
Proof. unfold after_logs. by rewrite record_epoch_and_logs_run. Qed.

Lemma on_epoch_end_loop cls epoch_ logs w :
  on_epoch_end cls epoch_ logs w =
    let w1 := after_logs epoch_ logs w in
    if bool_decide (length (validation_sets (self w)) = 0%nat) then (w1, Ok tt)
    else for_each (validate cls (model_to_evaluate cls (self w1)))
                  (validation_sets (self w)) w1.
Proof.
  rewrite on_epoch_end_run. fold (after_logs epoch_ logs w).
  destruct (after_logs_config epoch_ logs w) as (Hsets & _).
  unfold evaluate_validation_sets. rewrite bind_run. cbn [gets].
  rewrite Hsets. cbv zeta.
  case_bool_decide; [done|]. rewrite bind_run. cbn [gets]. reflexivity.
Qed.

(** With the sets of the three shapes, the loop runs whether or not the
    list is empty. *)
Lemma on_epoch_end_specs cls epoch_ logs w specs :
  validation_sets (self w) = to_py <$> specs →
  on_epoch_end cls epoch_ logs w =
    for_each (validate cls (model_to_evaluate cls
                              (self (after_logs epoch_ logs w))))
             (to_py <$> specs) (after_logs epoch_ logs w).
Proof.
  intros Hsets. rewrite on_epoch_end_loop, Hsets. cbv zeta.
  case_bool_decide as Hlen; [|done].
  rewrite length_fmap in Hlen. by destruct specs.
Qed.

Lemma after_logs_gens epoch_ logs w :
  gens (after_logs epoch_ logs w) = gens w.
Proof. unfold after_logs. by rewrite record_epoch_and_logs_run. Qed.

(** Whatever the outcome of [on_epoch_end], the calls it logged are those
    of the model to evaluate, carried out in order. *)
Lemma on_epoch_end_performed cls epoch_ logs w m :
  model_to_evaluate cls (self (after_logs epoch_ logs w)) = Some m ∨
  model_to_evaluate cls (self (after_logs epoch_ logs w)) = None →
  performed m w (on_epoch_end cls epoch_ logs w).1.
Proof.
  intros Hm. rewrite on_epoch_end_loop. cbv zeta.
  apply (performed_trans m _ (after_logs epoch_ logs w)).
  - apply performed_same; [apply after_logs_calls | apply after_logs_gens].
  - case_bool_decide; [apply performed_refl|].
    by apply performed_for_each_validate.
Qed.

(** The new entries of the log, once the invocation has ended. *)
Lemma performed_log (m : Model) (w w' : world) new :
  performed m w w' →
  calls w' = calls w ++ new →
  run_calls m (gens w) new.*1 = (gens w', new).
Proof.
  intros (new' & Hc & Hrun) Hnew. rewrite Hc in Hnew.
  apply app_inv_head in Hnew. by subst.
Qed.


(** * Without a model to evaluate *)

Lemma nan_entries (pre name : string) (names : list string) :
  metric_entries pre name names ((fun _ => nan) <$> names) =
    (fun metric => (metric_key pre name metric, Scalar nan)) <$> names.
Proof.
  unfold metric_entries. induction names as [|metric names IH]; [done|].
  cbn [fmap list_fmap zip_with] in *. by rewrite IH.
Qed.

Lemma validate_none cls tm spec w :
  model (self w) = Some tm →
  validate cls None (to_py spec) w =
    (recorded_world
       (append_all (no_model_entries (prefix cls) (metrics_names tm)
                      (record_predictions (self w)) spec)
                   (history (self w)))
       (stdout w ++ printed (prefix cls) (spec_name spec) (verbose (self w))
                            (metrics_names tm)
                            ((fun _ => nan) <$> metrics_names tm)) w,
     Ok tt).
Proof.
  intros Hm. rewrite validate_run.
  assert (evaluate_set None (unpacked_of spec) w =
            (w, Ok (VSeq ((fun _ => nan) <$> metrics_names tm),
                    if record_predictions (self w)
                    then Some {| y_pred := []; y_true := [] |} else None)))
    as ->.
  { unfold evaluate_set, with_predictions. mrun. rewrite Hm.
    by destruct (record_predictions (self w)). }
  apply (record_set_ok cls tm); [done|].
  exists ((fun _ => nan) <$> metrics_names tm).
  split; [done|]. split; [by rewrite length_fmap|].
  unfold set_entries, no_model_entries. by rewrite nan_entries.
Qed.

Lemma for_each_validate_none cls tm specs w :
  model (self w) = Some tm →
  ∃ out,
    for_each (validate cls None) (to_py <$> specs) w =
      (recorded_world
         (append_all (concat (no_model_entries (prefix cls) (metrics_names tm)
                                (record_predictions (self w)) <$> specs))
                     (history (self w)))
         out w,
       Ok tt).
Proof.
  revert w. induction specs as [|spec specs IH]; intros w Hm.
  - exists (stdout w). simpl. by rewrite recorded_world_id.
  - cbn [fmap list_fmap for_each]. rewrite bind_run.
    rewrite (validate_none cls tm spec w Hm).
    match goal with |- context [for_each _ _ ?w1] =>
      destruct (IH w1 Hm) as [out ->] end.
    exists out. rewrite recorded_world_twice.
    cbn [self recorded_world history set_history record_predictions concat].
    by rewrite append_all_app.
Qed.

(** C2 as the code has it. When there is no model to evaluate and a
    trained model is attached, [on_epoch_end] ends normally without any
    external call: for each validation set it appends empty predictions
    under the ['_predictions'] key when predictions are recorded, then one
    not-a-number under the key of each entry of the trained model's
    [metrics_names].  When no trained model is attached either and there is
    a validation set, it raises [AttributeError] instead, once the epoch and
    the original logs are recorded. *)
Theorem on_epoch_end_without_model cls epoch_ logs w specs :
  validation_sets (self w) = to_py <$> specs →
  model_to_evaluate cls (self (after_logs epoch_ logs w)) = None →
  (∀ tm,
     model (self w) = Some tm →
     ∃ w',
       on_epoch_end cls epoch_ logs w = (w', Ok tt) ∧
       calls w' = calls w ∧ gens w' = gens w ∧
       history_after
         (history (self (after_logs epoch_ logs w)))
         (concat (no_model_entries (prefix cls) (metrics_names tm)
                    (record_predictions (self w)) <$> specs))
         (history (self w'))) ∧
  (model (self w) = None →
   specs ≠ [] →
   on_epoch_end cls epoch_ logs w
     = (after_logs epoch_ logs w, Raise AttributeError)).
Proof.
  intros Hsets Hmodel.
  rewrite (on_epoch_end_specs _ _ _ _ _ Hsets), Hmodel.
  destruct (after_logs_config epoch_ logs w) as (_ & Hm1 & _ & Hrp).
  split.
  - intros tm Hm.
    destruct (for_each_validate_none cls tm specs (after_logs epoch_ logs w))
      as [out ->]; [by rewrite Hm1|].
    eexists. split; [reflexivity|].
    cbn [calls gens self recorded_world history set_history].
    rewrite after_logs_calls, after_logs_gens, Hrp.
    split; [done|]. split; [done|]. apply append_all_history_after.
  - intros Hm Hne. destruct specs as [|spec specs]; [done|].
    cbn [fmap list_fmap for_each]. rewrite bind_run, validate_run.
    unfold evaluate_set. rewrite bind_run. cbn [gets]. by rewrite Hm1, Hm.
Qed.

(** * Whatever the outcome *)

(** One validation set, ended or raised: its evaluate call is the one
    expected for its shape, and it is the only evaluate call. *)
Lemma validate_calls cls m spec w w' r :
  validate cls (Some m) (to_py spec) w = (w', r) →
  ∃ ret new,
    calls w' = calls w ++ (expected_call (batch_size (self w)) spec, ret) :: new ∧
    evaluate_calls new = [] ∧
    batch_size (self w') = batch_size (self w).
Proof.
  intros H. rewrite validate_run in H.
  destruct (evaluate_set (Some m) (unpacked_of spec) w)
    as [w1 [[results preds]|e]] eqn:He.
  - apply evaluate_set_run in He as (Hs & Ho & ret & new & Hc & Hn & Hr).
    destruct (Hr results preds eq_refl) as (-> & p & -> & Hp).
    pose proof (records_record_set cls (VStr (spec_name spec)) results
                  (if record_predictions (self w) then Some p else None)) as Hk.
    specialize (Hk (fun q Hq => ltac:(destruct (record_predictions (self w));
                                       congruence)) w1).
    rewrite H in Hk. cbn [fst] in Hk. destruct Hk as (entries & out & -> & _).
    exists (Ok results), new. cbn [calls self recorded_world].
    split; [done|]. split; [done|]. by rewrite Hs.
  - injection H as <- <-.
    apply evaluate_set_run in He as (Hs & Ho & ret & new & Hc & Hn & Hr).
    exists ret, new. split; [done|]. split; [done|]. by rewrite Hs.
Qed.

Lemma for_each_validate_calls cls m specs w w' r :
  for_each (validate cls (Some m)) (to_py <$> specs) w = (w', r) →
  ∃ new k,
    calls w' = calls w ++ new ∧
    (evaluate_calls new).*1
      = expected_call (batch_size (self w)) <$> take k specs ∧
    (r = Ok tt → k = length specs).
Proof.
  revert w. induction specs as [|spec specs IH]; intros w H.
  - injection H as <- <-. exists [], 0%nat. by rewrite app_nil_r.
  - cbn [fmap list_fmap for_each] in H. rewrite bind_run in H.
    destruct (validate cls (Some m) (to_py spec) w) as [w1 [[]|e]] eqn:H1;
      apply validate_calls in H1 as (ret & new1 & Hc1 & Hn1 & Hsize).
    + apply IH in H as (new & k & Hc & Hn & Hk).
      exists (((expected_call (batch_size (self w)) spec, ret) :: new1) ++ new),
             (S k).
      split; [by rewrite Hc, Hc1, <- app_assoc|]. split.
      * rewrite evaluate_calls_app, fmap_app, Hn, Hsize.
        unfold evaluate_calls at 1. cbn [List.filter fst].
        replace (is_evaluate (expected_call (batch_size (self w)) spec))
          with true by (by destruct spec).
        fold (evaluate_calls new1). by rewrite Hn1.
      * intros Hr. simpl. by rewrite Hk.
    + injection H as <- <-.
      exists ((expected_call (batch_size (self w)) spec, ret) :: new1), 1%nat.
      split; [done|]. split; [|done].
      unfold evaluate_calls. cbn [List.filter fst].
      replace (is_evaluate (expected_call (batch_size (self w)) spec))
        with true by (by destruct spec).
      fold (evaluate_calls new1). by rewrite Hn1.
Qed.

(** C4. With a model to evaluate, the calls that [on_epoch_end] logs are
    operations of that model, carried out in order; and its evaluate calls
    are, in the order of the validation sets, the generator-based evaluate
    on the generator and the step count for a 2-tuple, and the array-based
    evaluate on the data and the targets for a 3-tuple and a 4-tuple, with
    the sample weights only for the 4-tuple; every set has had its call
    when the invocation ends normally, and the first sets up to the one
    that raised otherwise. *)
Theorem on_epoch_end_evaluate_calls cls epoch_ logs w w' r m specs :
  validation_sets (self w) = to_py <$> specs →
  model_to_evaluate cls (self (after_logs epoch_ logs w)) = Some m →
  on_epoch_end cls epoch_ logs w = (w', r) →
  ∃ new k,
    calls w' = calls w ++ new ∧
    run_calls m (gens w) new.*1 = (gens w', new) ∧
    (evaluate_calls new).*1
      = expected_call (batch_size (self w)) <$> take k specs ∧
    (r = Ok tt → k = length specs).
Proof.
  intros Hsets Hmodel H.
  pose proof (on_epoch_end_performed cls epoch_ logs w m (or_introl Hmodel))
    as Hperf.
  rewrite H in Hperf. cbn [fst] in Hperf.
  rewrite (on_epoch_end_specs _ _ _ _ _ Hsets), Hmodel in H.
  apply for_each_validate_calls in H as (new & k & Hc & Hn & Hk).
  destruct (after_logs_config epoch_ logs w) as (_ & _ & Hsize & _).
  rewrite after_logs_calls in Hc. rewrite Hsize in Hn.
  exists new, k. split; [done|]. split; [|done].
  by apply (performed_log m w w').
Qed.

(** * Bundles stay balanced *)

Lemma evaluate_set_any model_ u w w' r :
  evaluate_set model_ u w = (w', r) →
  same_self w w' ∧
  ∀ res p, r = Ok (res, Some p) → length (y_pred p) = length (y_true p).
Proof.
  assert (∀ c f predictions w w' r,
            keeps quiet predictions →
            (∀ w w' p, predictions w = (w', Ok p) →
                       length (y_pred p) = length (y_true p)) →
            (results ← external c f; with_predictions results predictions) w
              = (w', r) →
            same_self w w' ∧
            ∀ res p, r = Ok (res, Some p) →
                     length (y_pred p) = length (y_true p)) as Hcall.
  { intros c f predictions w0 w0' r0 Hq Hb H.
    apply call_then_predict in H as (Hs & Ho & ret & new & _ & _ & Hr);
      [|done..].
    split; [done|]. intros res p ->.
    destruct (Hr res (Some p) eq_refl) as (_ & q & Hq' & Hlen).
    destruct (record_predictions (self w0)); [|done]. by injection Hq' as ->. }
  unfold evaluate_set. destruct model_ as [m|].
  - destruct (validation_generator u);
      try (apply Hcall;
           [apply quiet_generator_predictions
           |apply generator_predictions_balanced]).
    rewrite bind_run. cbn [gets].
    apply Hcall;
      [apply quiet_array_predictions | apply array_predictions_balanced].
  - rewrite bind_run. cbn [gets].
    destruct (model (self w)) as [tm|]; [|intros [= <- <-]; by split].
    intros H. apply after_evaluate in H as [(Hs & Ho & _) Hr].
    + split; [done|]. intros res p ->.
      destruct (Hr res (Some p) eq_refl) as (_ & q & Hq' & Hlen).
      destruct (record_predictions (self w)); [|done]. by injection Hq' as ->.
    + intros w0. apply quiet_refl.
    + intros w0 w0' p [= <- <-]. done.
Qed.

Lemma append_all_balanced (entries : list (string * recorded))
    (h : gmap string (list recorded)) :
  Forall (fun entry => balanced entry.2) entries →
  history_balanced h → history_balanced (append_all entries h).
Proof.
  revert h. induction entries as [|[k v] entries IH]; intros h Hall Hh;
    [done|].
  apply Forall_cons in Hall as [Hv Hall].
  change (append_all ((k, v) :: entries) h)
    with (append_all entries (setdefault_append k v h)).
  apply IH; [done|]. intros k' l. unfold setdefault_append.
  destruct (decide (k = k')) as [->|Hne].
  - rewrite lookup_insert_eq. intros [= <-]. apply Forall_app. split.
    + destruct (h !! k') as [l0|] eqn:Hl0; [by apply (Hh k')|constructor].
    + by repeat constructor.
  - rewrite lookup_insert_ne by done. apply Hh.
Qed.

Lemma keeps_balance_refl (w : world) : keeps_balance w w.
Proof. by intros ?. Qed.

Lemma keeps_balance_trans (w1 w2 w3 : world) :
  keeps_balance w1 w2 → keeps_balance w2 w3 → keeps_balance w1 w3.
Proof. unfold keeps_balance. auto. Qed.

Lemma grows_refl (w : world) : grows w w.
Proof. exists []. split; [by destruct (self w)|constructor]. Qed.

Lemma grows_trans (w1 w2 w3 : world) : grows w1 w2 → grows w2 w3 → grows w1 w3.
Proof.
  intros (l & Hl & Hlb) (k & Hk & Hkb). exists (l ++ k). split.
  - by rewrite Hk, Hl, append_all_app.
  - by apply Forall_app.
Qed.

Lemma records_grows (w w' : world) : records w w' → grows w w'.
Proof. intros (entries & out & -> & Hall). by exists entries. Qed.

Lemma grows_keeps_balance (w w' : world) : grows w w' → keeps_balance w w'.
Proof.
  intros (entries & Hs & Hall) Hh. rewrite Hs. by apply append_all_balanced.
Qed.

Lemma validate_grows cls model_ validation_set :
  keeps grows (validate cls model_ validation_set).
Proof.
  intros w. unfold validate. rewrite bind_run. unfold lift at 1.
  destruct (unpack_validation_set validation_set) as [u|e];
    [|apply grows_refl].
  rewrite bind_run.
  destruct (evaluate_set model_ u w) as [w1 [[results preds]|e]] eqn:He;
    apply evaluate_set_any in He as [[Hs _] Hp].
  - apply (grows_trans _ w1).
    + destruct (grows_refl w) as (l & Hl & Hlb). exists l. by rewrite Hs.
    + apply records_grows, records_record_set.
      intros p ->. by apply (Hp results).
  - cbn [fst]. destruct (grows_refl w) as (l & Hl & Hlb). exists l.
    by rewrite Hs.
Qed.

Lemma for_each_validate_grows cls model_ sets :
  keeps grows (for_each (validate cls model_) sets).
Proof.
  apply (keeps_for_each grows grows_refl grows_trans).
  intros validation_set. apply validate_grows.
Qed.

Lemma on_epoch_end_keeps_balance cls epoch_ logs :
  keeps keeps_balance (on_epoch_end cls epoch_ logs).
Proof.
  intros w. rewrite on_epoch_end_loop. cbv zeta.
  apply (keeps_balance_trans _ (after_logs epoch_ logs w)).
  - unfold after_logs. rewrite record_epoch_and_logs_run.
    intros Hh. cbn [fst self history set_history].
    destruct (record_original_history (self w)); [|done].
    apply append_all_balanced; [|done].
    unfold log_entries. apply Forall_fmap, Forall_true. by intros [??].
  - case_bool_decide; [apply keeps_balance_refl|].
    apply grows_keeps_balance, for_each_validate_grows.
Qed.

(** * Mismatched counts *)

Lemma assert_same_length_mismatch p w :
  length (y_true p) ≠ length (y_pred p) →
  assert_same_length p w = (w, Raise AssertionError).
Proof.
  intros Hne. rewrite assert_same_length_run.
  by rewrite bool_decide_eq_false_2.
Qed.

Lemma validate_mismatch cls m spec w w' p :
  record_predictions (self w) = true →
  reconstructed m spec w = (w', Ok p) →
  length (y_true p) ≠ length (y_pred p) →
  validate cls (Some m) (to_py spec) w = (w', Raise AssertionError) ∧
  self w' = self w.
Proof.
  intros Hrp H Hne. rewrite validate_run.
  assert (evaluate_set (Some m) (unpacked_of spec) w
            = (w', Raise AssertionError)) as He.
  { unfold evaluate_set.
    assert (∀ results predictions w1,
              record_predictions (self w1) = true →
              predictions w1 = (w', Raise AssertionError) →
              with_predictions results predictions w1
                = (w', Raise AssertionError)) as Hwith.
    { intros results predictions w1 Hrp1 Hp. unfold with_predictions.
      rewrite bind_run. cbn [gets]. rewrite Hrp1, bind_run, Hp. done. }
    destruct spec as [g steps name|data targets name|data targets weights name];
      cbn [reconstructed unpacked_of validation_generator validation_steps
           validation_data validation_targets sample_weights] in *.
    - apply bind_ok in H as (results & w1 & He & H). rewrite bind_run, He.
      pose proof (external_ok _ _ _ _ _ He) as (Hs1 & _).
      apply Hwith; [by rewrite Hs1|].
      unfold generator_predictions. rewrite bind_run, H.
      by rewrite assert_same_length_mismatch.
    - apply bind_ok in H as (size & ? & [= <- <-] & H).
      apply bind_ok in H as (results & w1 & He & H).
      rewrite bind_run. cbn [gets]. rewrite bind_run, He.
      pose proof (external_ok _ _ _ _ _ He) as (Hs1 & _).
      apply Hwith; [by rewrite Hs1|].
      unfold array_predictions. rewrite bind_run, H.
      by rewrite assert_same_length_mismatch.
    - apply bind_ok in H as (size & ? & [= <- <-] & H).
      apply bind_ok in H as (results & w1 & He & H).
      rewrite bind_run. cbn [gets]. rewrite bind_run, He.
      pose proof (external_ok _ _ _ _ _ He) as (Hs1 & _).
      apply Hwith; [by rewrite Hs1|].
      unfold array_predictions. rewrite bind_run, H.
      by rewrite assert_same_length_mismatch. }
  rewrite He. split; [done|].
  by apply evaluate_set_any in He as [[Hs _] _].
Qed.

(** C6. Whatever the outcome of [on_epoch_end], a history whose bundles all
    have as many predictions as targets is still so afterwards; and when
    the sequences reconstructed for a validation set differ in length, the
    sets before it having been evaluated, the invocation raises
    [AssertionError] with nothing recorded for this set. *)
Theorem on_epoch_end_mismatch cls epoch_ logs w :
  (∀ w' r,
     on_epoch_end cls epoch_ logs w = (w', r) →
     history_balanced (history (self w)) →
     history_balanced (history (self w'))) ∧
  (∀ m before spec rest wk w' p,
     record_predictions (self w) = true →
     validation_sets (self w) = to_py <$> (before ++ spec :: rest) →
     model_to_evaluate cls (self (after_logs epoch_ logs w)) = Some m →
     for_each (validate cls (Some m)) (to_py <$> before)
              (after_logs epoch_ logs w) = (wk, Ok tt) →
     reconstructed m spec wk = (w', Ok p) →
     length (y_true p) ≠ length (y_pred p) →
     on_epoch_end cls epoch_ logs w = (w', Raise AssertionError) ∧
     self w' = self wk).
Proof.
  split.
  - intros w' r H. pose proof (on_epoch_end_keeps_balance cls epoch_ logs w) as Hk.
    by rewrite H in Hk.
  - intros m before spec rest wk w' p Hrp Hsets Hmodel Hbefore Hrec Hne.
    rewrite (on_epoch_end_specs _ _ _ _ _ Hsets), Hmodel.
    rewrite fmap_app, for_each_app, Hbefore.
    cbn [fmap list_fmap for_each]. rewrite bind_run.
    assert (record_predictions (self wk) = true) as Hrpk.
    { pose proof (for_each_validate_grows cls (Some m) (to_py <$> before)
                    (after_logs epoch_ logs w)) as (l & Hl & _).
      rewrite Hbefore in Hl. cbn [fst] in Hl. rewrite Hl.
      destruct (after_logs_config epoch_ logs w) as (_ & _ & _ & Hrp1).
      cbn [record_predictions set_history]. by rewrite Hrp1. }
    destruct (validate_mismatch cls m spec wk w' p Hrpk Hrec Hne) as [-> Hs].
    done.
Qed.

(** * Alignment of the predictions from a generator *)





(** * [results] *)

Lemma last_recorded_ok (l : list recorded) :
  l ≠ [] → ∃ v, last l = Some v ∧ last_recorded l = Ok v.
Proof.
  intros Hl. destruct (last l) as [v|] eqn:Hlast.
  - exists v. split; [done|]. unfold last_recorded.
    rewrite last_lookup in Hlast.
    replace (Z.of_nat (length l) - 1) with (Z.of_nat (Nat.pred (length l))).
    + by apply seq_getitem_nat.
    + destruct l; [done|]. simpl length. lia.
  - by apply last_None in Hlast.
Qed.

Lemma results_run (self : AdditionalValidationSets) :
  history self ≠ ∅ →
  sequences_nonempty (history self) →
  results self =
    Ok (Some ((fun l => default (Scalar VNone) (last l)) <$> history self)).
Proof.
  intros Hne Hseq. unfold results.
  rewrite bool_decide_eq_false_2 by (by rewrite dom_empty_iff_L).
  set (f := fun l : list recorded => default (Scalar VNone) (last l)).
  assert (traverse (fun '(key, l) => v ← last_recorded l; Ok (key, v))
                   (map_to_list (history self))
            = Ok (prod_map id f <$> map_to_list (history self))) as ->.
  { apply traverse_ok, Forall2_fmap_r, Forall_Forall2_diag, Forall_forall.
    intros [k l] Hkl%elem_of_map_to_list.
    destruct (last_recorded_ok l (Hseq k l Hkl)) as (v & Hlast & ->).
    subst f. simpl. by rewrite Hlast. }
  simpl. by rewrite list_to_map_fmap, list_to_map_to_list.
Qed.

(** C7 as the code has it. An empty history gives [None]; a history that
    is not empty, its sequences having an entry each, gives the mapping
    with exactly its keys, each to the last value of its sequence. *)
Theorem results_last_values (self : AdditionalValidationSets) :
  (history self = ∅ → results self = Ok None) ∧
  (history self ≠ ∅ →
   sequences_nonempty (history self) →
   ∃ r, results self = Ok (Some r) ∧
        dom r = dom (history self) ∧
        ∀ k l, history self !! k = Some l → r !! k = last l).
Proof.
  split.
  - intros Hh. unfold results. by rewrite Hh, dom_empty_L.
  - intros Hne Hseq. eexists. split; [by apply results_run|].
    split; [apply dom_fmap_L|].
    intros k l Hkl. rewrite lookup_fmap, Hkl. simpl.
    destruct (last l) eqn:Hlast; [done|].
    apply last_None in Hlast. by destruct (Hseq k l Hkl).
Qed.

(** The sequences of the history have an entry each in every state the
    methods reach. *)
Lemma append_all_nonempty (entries : list (string * recorded))
    (h : gmap string (list recorded)) :
  sequences_nonempty h → sequences_nonempty (append_all entries h).
Proof.
  revert h. induction entries as [|[k v] entries IH]; intros h Hh; [done|].
  change (append_all ((k, v) :: entries) h)
    with (append_all entries (setdefault_append k v h)).
  apply IH. intros k' l. unfold setdefault_append.
  destruct (decide (k = k')) as [->|Hne].
  - rewrite lookup_insert_eq. intros [= <-]. by destruct (default [] (h !! k')).
  - rewrite lookup_insert_ne by done. apply Hh.
Qed.

Lemma on_epoch_end_sequences_nonempty cls epoch_ logs w :
  sequences_nonempty (history (self w)) →
  sequences_nonempty (history (self (on_epoch_end cls epoch_ logs w).1)).
Proof.
  intros Hh. rewrite on_epoch_end_loop. cbv zeta.
  assert (sequences_nonempty (history (self (after_logs epoch_ logs w))))
    as Hh1.
  { unfold after_logs. rewrite record_epoch_and_logs_run.
    cbn [fst self history set_history].
    destruct (record_original_history (self w)); [|done].
    by apply append_all_nonempty. }
  case_bool_decide; [done|].
  destruct (for_each_validate_grows cls
              (model_to_evaluate cls (self (after_logs epoch_ logs w)))
              (validation_sets (self w)) (after_logs epoch_ logs w))
    as (entries & -> & _).
  by apply append_all_nonempty.
Qed.

Lemma on_train_begin_sequences_nonempty self :
  sequences_nonempty (history (on_train_begin self)).
Proof. intros k l. simpl. by rewrite lookup_empty. Qed.

(** * [on_train_begin] *)

(** C9. [on_train_begin] leaves an empty history and an empty epoch list,
    whatever they held, and every other field as it was. *)
Theorem on_train_begin_resets (self : AdditionalValidationSets) :
  history (on_train_begin self) = ∅ ∧
  epoch (on_train_begin self) = [] ∧
  validation_sets (on_train_begin self) = validation_sets self ∧
  verbose (on_train_begin self) = verbose self ∧
  batch_size (on_train_begin self) = batch_size self ∧
  record_original_history (on_train_begin self) = record_original_history self ∧
  record_predictions (on_train_begin self) = record_predictions self ∧
  model (on_train_begin self) = model self.
Proof. repeat split. Qed.

(** * What construction checks *)

Lemma check_arities_same_lengths (sets sets' : list pyval) :
  Forall2 (fun x y => py_len x = py_len y) sets sets' →
  check_arities sets = check_arities sets'.
Proof.
  induction 1 as [|x y sets sets' Hxy _ IH]; [done|].
  simpl. rewrite Hxy, IH. done.
Qed.

(** C8 as the code has it. Construction accepts every list of specs of the
    three shapes, and it looks at nothing but the length of each element:
    two lists whose elements have the same lengths are both accepted or
    both rejected. *)
Theorem init_checks_arity_only :
  (∀ specs v b roh rp,
     ∃ cb, init (to_py <$> specs) v b roh rp = Ok cb) ∧
  (∀ sets sets' v b roh rp,
     Forall2 (fun x y => py_len x = py_len y) sets sets' →
     is_ok (init sets v b roh rp) = is_ok (init sets' v b roh rp)).
Proof.
  split.
  - intros specs v b roh rp. apply init_ok_iff, Forall_fmap, Forall_true.
    intros [? ? ?|? ? ?|? ? ? ?]; unfold good_arity; simpl; auto.
  - intros sets sets' v b roh rp Hlen. unfold init.
    rewrite (check_arities_same_lengths _ _ Hlen).
    by destruct (check_arities sets') as [[]|].
Qed.

(** * The theorems at work on examples *)

Lemma init_raises_iff_bad_arity_witness :
  init (to_py <$> example_specs) 1 VNone true true =
    Ok {| record_predictions := true;
          validation_sets := to_py <$> example_specs; epoch := [];
          history := ∅; verbose := 1; batch_size := VNone;
          record_original_history := true; model := None |}.
Proof.
  apply (proj2 (init_raises_iff_bad_arity (to_py <$> example_specs)
                  1 VNone true true)).
  apply check_arities_ok. reflexivity.
Defined.

Lemma on_epoch_end_records_logs_witness :
  ∃ w1,
    on_epoch_end base_class 1 example_logs example_start
      = evaluate_validation_sets base_class w1 ∧
    calls w1 = [] ∧
    history (self w1) !! "loss" = Some [Scalar acc_value; Scalar loss_value] ∧
    history (self w1) !! "acc" = None.
Proof.
  destruct (on_epoch_end_records_logs base_class 1 example_logs example_start)
    as (w1 & Hrun & Hc & _ & _ & _ & Hk).
  exists w1. split; [exact Hrun|]. split; [exact Hc|].
  split; [exact (Hk "loss") | exact (Hk "acc")].
Defined.


Lemma on_epoch_end_without_model_witness :
  (∃ w',
     on_epoch_end no_model_class 1 example_logs example_start = (w', Ok tt) ∧
     calls w' = [] ∧ gens w' = gens example_start ∧
     history_after
       (history (self (after_logs 1 example_logs example_start)))
       (concat (no_model_entries "swa_" ["loss"; "acc"] true
                  <$> example_specs))
       (history (self w'))) ∧
  on_epoch_end no_model_class 1 example_logs detached_start
    = (after_logs 1 example_logs detached_start, Raise AttributeError).
Proof.
  split.
  - apply (proj1 (on_epoch_end_without_model no_model_class 1 example_logs
                    example_start example_specs eq_refl eq_refl)
             example_model).
    reflexivity.
  - apply (proj2 (on_epoch_end_without_model no_model_class 1 example_logs
                    detached_start example_specs eq_refl eq_refl)).
    + reflexivity.
    + discriminate.
Defined.

Lemma on_epoch_end_evaluate_calls_witness :
  ∃ new k,
    calls example_end = new ∧
    run_calls example_model (gens example_start) new.*1
      = (gens example_end, new) ∧
    (evaluate_calls new).*1 = expected_call VNone <$> take k example_specs ∧
    (Ok tt = Ok tt → k = 2%nat).
Proof.
  apply (on_epoch_end_evaluate_calls base_class 1 example_logs
           example_start example_end (Ok tt) example_model example_specs);
    vm_compute; reflexivity.
Defined.


Lemma on_epoch_end_mismatch_witness :
  on_epoch_end base_class 1 example_logs mismatched_start
    = (mismatched_end, Raise AssertionError) ∧
  self mismatched_end = self (after_logs 1 example_logs mismatched_start).
Proof.
  apply (proj2 (on_epoch_end_mismatch base_class 1 example_logs
                  mismatched_start)
           short_model [] mismatched_spec []
           (after_logs 1 example_logs mismatched_start) mismatched_end
           {| y_pred := [VSeq [VInt 0]];
              y_true := [VSeq [VInt 0]; VSeq [VInt 1]] |});
    try (vm_compute; reflexivity).
  vm_compute. discriminate.
Defined.

Lemma results_last_values_witness :
  ∃ r, results (self example_end) = Ok (Some r) ∧
       dom r = dom (history (self example_end)) ∧
       ∀ k l, history (self example_end) !! k = Some l → r !! k = last l.
Proof.
  apply (proj2 (results_last_values (self example_end))).
  - intros H. apply (f_equal (fun h => h !! "loss")) in H.
    vm_compute in H. discriminate.
  - apply (on_epoch_end_sequences_nonempty base_class 1 example_logs
             example_start).
    intros k l Hkl.
    change (history (self example_start))
      with ({[ "loss" := [Scalar acc_value] ]} : gmap string (list recorded))
      in Hkl.
    apply lookup_singleton_Some in Hkl as [_ <-]. done.
Defined.

Lemma init_checks_arity_only_witness :
  is_ok (init [malformed_set] 0 VNone true false) =
    is_ok (init [to_py (GeneratorSet 0 2 "gen")] 0 VNone true false).
Proof.
  apply (proj2 init_checks_arity_only).
  repeat constructor.
Defined.

(** The example invocation ends normally.  The generator-based evaluate
    has consumed the first two batches, so the predictions recorded for the
    generator are those of the third and the fourth. *)
Example example_run_ends :
  on_epoch_end base_class 1 example_logs example_start = (example_end, Ok tt).
Proof. vm_compute. reflexivity. Qed.

Example example_generator_bundle :
  history (self example_end) !! "gen_predictions" =
    Some [Predictions
            {| y_pred := [VSeq [VInt 5]; VSeq [VInt 6];
                          VSeq [VInt 7]; VSeq [VInt 8]];
               y_true := [VSeq [VInt 1]; VSeq [VInt 1];
                          VSeq [VInt 0]; VSeq [VInt 0]] |}].
Proof. vm_compute. reflexivity. Qed.

Example example_metric_keys :
  history (self example_end) !! "held_out_acc" = Some [Scalar acc_value] ∧
  history (self example_end) !! "loss"
    = Some [Scalar acc_value; Scalar loss_value].
Proof. split; vm_compute; reflexivity. Qed.

(** The malformed element accepted by construction is found out when it is
    unpacked at the end of the first epoch. *)
Example malformed_set_raises_at_epoch_end :
  (on_epoch_end base_class 1 None malformed_start).2 = Raise TypeError.
Proof. vm_compute. reflexivity. Qed.

(** * Where the specification and the code part *)


(** C2: in the class as written there is no model to evaluate only while
    [self.model] is [None], and then the not-a-number defaults cannot be
    built: the invocation raises. *)
Lemma on_epoch_end_without_model_counterexample :
  model_to_evaluate base_class (self (after_logs 1 None detached_start))
    = None ∧
  validation_sets (self detached_start) ≠ [] ∧
  on_epoch_end base_class 1 None detached_start
    = (after_logs 1 None detached_start, Raise AttributeError).
Proof.
  split; [reflexivity|]. split; [done|]. vm_compute. reflexivity.
Qed.


(** C7: with an empty history [results] gives [None], not a mapping. *)
Lemma results_empty_history_counterexample :
  history fresh_callback = ∅ ∧
  results fresh_callback = Ok None ∧
  ¬ ∃ r : gmap string recorded,
      results fresh_callback = Ok (Some r) ∧
      dom r = dom (history fresh_callback).
Proof.
  split; [done|]. split; [done|]. intros (r & Hr & _). discriminate Hr.
Qed.

(** C8: an element of arity 2 that is of none of the three shapes is
    accepted by construction. *)
Lemma init_accepts_malformed_counterexample :
  (∀ spec, to_py spec ≠ malformed_set) ∧
  ∃ cb, init [malformed_set] 0 VNone true false = Ok cb ∧
        validation_sets cb = [malformed_set].
Proof.
  split.
  - intros [? ? ?|? ? ?|? ? ? ?]; discriminate.
  - eexists. split; reflexivity.
Qed.

(** * Further properties of [on_epoch_end] *)

(** The entries an invocation appends, whatever its outcome. *)
Lemma on_epoch_end_appends cls epoch_ logs w :
  ∃ entries,
    self (after_epoch cls epoch_ logs w) =
      set_history (append_all entries (history (self w)))
                  (set_epoch (epoch (self w) ++ [epoch_]) (self w)).
Proof.
  unfold after_epoch. rewrite on_epoch_end_loop. cbv zeta.
  assert (∃ l, self (after_logs epoch_ logs w) =
                 set_history (append_all l (history (self w)))
                   (set_epoch (epoch (self w) ++ [epoch_]) (self w)))
    as [l Hl].
  { unfold after_logs. rewrite record_epoch_and_logs_run. cbn [fst self].
    destruct (record_original_history (self w)); [by eexists|].
    by exists []. }
  case_bool_decide; [by exists l|].
  destruct (for_each_validate_grows cls
              (model_to_evaluate cls (self (after_logs epoch_ logs w)))
              (validation_sets (self w)) (after_logs epoch_ logs w))
    as (entries & -> & _).
  exists (l ++ entries). rewrite Hl. cbn [history set_history].
  by rewrite append_all_app.
Qed.

(** X1. Whether it returns or raises, [on_epoch_end] appends the epoch
    number to [self.epoch] and changes nothing else of the callback but the
    history: the validation sets, the verbosity, the batch size, the two
    recording flags and the model are as they were. *)
Theorem on_epoch_end_frame cls epoch_ logs w :
  self (after_epoch cls epoch_ logs w) =
    set_history (history (self (after_epoch cls epoch_ logs w)))
                (set_epoch (epoch (self w) ++ [epoch_]) (self w)).
Proof.
  destruct (on_epoch_end_appends cls epoch_ logs w) as [entries ->].
  reflexivity.
Qed.

(** X2. Whether it returns or raises, [on_epoch_end] only appends to the
    history: every key is still there afterwards, and its sequence starts
    with the values it held before, in the same order. *)
Theorem on_epoch_end_history_extends cls epoch_ logs w :
  extends (history (self w)) (history (self (after_epoch cls epoch_ logs w))).
Proof.
  destruct (on_epoch_end_appends cls epoch_ logs w) as [entries ->].
  apply append_all_extends.
Qed.

(** X3. With an empty list of validation sets [on_epoch_end] returns
    normally once the epoch and the original logs are recorded: no model is
    asked for, nothing is called outside the callback and nothing is
    printed, also when no model is attached. *)
Theorem on_epoch_end_no_sets cls epoch_ logs w :
  validation_sets (self w) = [] →
  ∃ w',
    on_epoch_end cls epoch_ logs w = (w', Ok tt) ∧
    calls w' = calls w ∧ gens w' = gens w ∧ stdout w' = stdout w ∧
    epoch (self w') = epoch (self w) ++ [epoch_] ∧
    ∀ k,
      history (self w') !! k =
        match record_original_history (self w), logs with
        | true, Some l =>
            match l !! k with
            | Some v => Some (default [] (history (self w) !! k) ++ [Scalar v])
            | None => history (self w) !! k
            end
        | _, _ => history (self w) !! k
        end.
Proof.
  intros Hsets. exists (after_logs epoch_ logs w).
  rewrite on_epoch_end_loop, Hsets. cbv zeta. split; [done|].
  unfold after_logs. rewrite record_epoch_and_logs_run.
  cbn [fst self gens calls stdout epoch set_history set_epoch history].
  repeat (split; [done|]). intros k.
  destruct (record_original_history (self w)); [|done].
  rewrite log_entries_lookup.
  destruct logs as [l|]; [done|]. cbn. by rewrite lookup_empty.
Qed.

Lemma on_epoch_end_no_sets_witness :
  ∃ w',
    on_epoch_end base_class 1 example_logs
      {| self := fresh_callback; gens := ∅; calls := []; stdout := [] |}
      = (w', Ok tt) ∧
    calls w' = [] ∧ gens w' = ∅ ∧ stdout w' = [] ∧
    epoch (self w') = [] ++ [1] ∧
    ∀ k,
      history (self w') !! k =
        match ({[ "loss" := loss_value ]} : gmap string pyval) !! k with
        | Some v =>
            Some (default [] ((∅ : gmap string (list recorded)) !! k)
                  ++ [Scalar v])
        | None => (∅ : gmap string (list recorded)) !! k
        end.
Proof.
  apply (on_epoch_end_no_sets base_class 1 example_logs
           {| self := fresh_callback; gens := ∅; calls := []; stdout := [] |}).
  reflexivity.
Defined.

(** * Further properties of [results] *)

Lemma traverse_raise {A B} (f : A → outcome B) (l : list A) (e : exn) :
  traverse f l = Raise e → ∃ x, x ∈ l ∧ f x = Raise e.
Proof.
  induction l as [|x l IH]; simpl; [done|].
  destruct (f x) as [y|e'] eqn:Hx; simpl.
  - destruct (traverse f l) as [ys|e'] eqn:Hl; simpl; [done|].
    intros [= ->]. destruct (IH eq_refl) as (x' & Hin & Hx').
    exists x'. split; [by right|done].
  - intros [= ->]. exists x. split; [by left|done].
Qed.

Lemma last_recorded_raise (l : list recorded) (e : exn) :
  last_recorded l = Raise e → l = [] ∧ e = IndexError.
Proof.
  destruct l as [|x l].
  - by intros [= <-].
  - destruct (last_recorded_ok (x :: l)) as (v & _ & ->); done.
Qed.

(** X4. [results] raises only on a history that holds an empty sequence,
    and then it raises [IndexError]; the callback's own methods never leave
    one. *)
Theorem results_raises_iff (self : AdditionalValidationSets) :
  ((∃ e, results self = Raise e) ↔ ∃ k, history self !! k = Some []) ∧
  (∀ e, results self = Raise e → e = IndexError).
Proof.
  assert (∀ e, results self = Raise e →
               e = IndexError ∧ ∃ k, history self !! k = Some []) as Hraise.
  { intros e. unfold results. case_bool_decide; [done|].
    destruct (traverse _ (map_to_list (history self))) as [pairs|e'] eqn:Ht;
      [done|].
    intros [= ->]. apply traverse_raise in Ht as ([k l] & Hin & Hf).
    apply elem_of_map_to_list in Hin.
    destruct (last_recorded l) as [v|e'] eqn:Hl; [done|].
    injection Hf as ->. apply last_recorded_raise in Hl as [-> ->].
    split; [done|]. by exists k. }
  split; [split|].
  - intros [e He]. by apply Hraise in He as [_ ?].
  - intros [k Hk]. unfold results.
    rewrite bool_decide_eq_false_2.
    + destruct (traverse _ (map_to_list (history self))) as [pairs|e] eqn:Ht;
        [|by eexists].
      apply traverse_ok in Ht. apply elem_of_map_to_list in Hk.
      apply list_elem_of_lookup in Hk as [i Hi].
      destruct (Forall2_lookup_l _ _ _ i _ Ht Hi) as (y & _ & Hy).
      discriminate Hy.
    + rewrite dom_empty_iff_L. intros Hempty.
      by rewrite Hempty, lookup_empty in Hk.
  - intros e He. by apply Hraise in He as [? _].
Qed.

Lemma results_raises_iff_witness : ∃ e, results hollow_callback = Raise e.
Proof.
  apply (proj2 (proj1 (results_raises_iff hollow_callback))).
  exists "loss". reflexivity.
Defined.

(** * The life of a callback object *)

Lemma happen_sound cls sets v b roh rp w ev :
  sound sets v b roh rp (self w) →
  sound sets v b roh rp (self (happen cls w ev)).
Proof.
  unfold sound. intros (Hsets & Hv & Hb & Hroh & Hrp & Hne & Hbal).
  destruct ev as [m| |epoch_ logs|st]; cbn [happen with_self self].
  - done.
  - repeat split; try done; intros k l; simpl; by rewrite lookup_empty.
  - pose proof (on_epoch_end_appends cls epoch_ logs w) as [entries Hf].
    pose proof (on_epoch_end_sequences_nonempty cls epoch_ logs w Hne) as Hne'.
    pose proof (on_epoch_end_keeps_balance cls epoch_ logs w Hbal) as Hbal'.
    fold (after_epoch cls epoch_ logs w) in Hne', Hbal'.
    rewrite Hf in *.
    cbn [validation_sets verbose batch_size record_original_history
         record_predictions history set_history set_epoch] in *.
    done.
  - done.
Qed.

Lemma life_sound cls sets v b roh rp events w :
  sound sets v b roh rp (self w) →
  sound sets v b roh rp (self (life cls w events)).
Proof.
  revert w. induction events as [|ev events IH]; intros w Hw; [done|].
  apply IH. by apply happen_sound.
Qed.

Lemma init_ok_fields sets v b roh rp cb :
  init sets v b roh rp = Ok cb →
  Forall good_arity sets ∧ sound sets v b roh rp cb.
Proof.
  intros Hinit. split; [apply (init_ok_iff sets v b roh rp); eauto|].
  unfold init in Hinit. destruct (check_arities sets) as [[]|]; [|done].
  injection Hinit as <-. unfold sound. cbn.
  repeat split; try done; intros k l; by rewrite lookup_empty.
Qed.

Lemma results_ok_of_nonempty (self : AdditionalValidationSets) :
  sequences_nonempty (history self) → ∃ r, results self = Ok r.
Proof.
  intros Hne. destruct (decide (dom (history self) = ∅)) as [Hd|Hd].
  - exists None. unfold results. by rewrite bool_decide_eq_true_2.
  - eexists. apply results_run; [|done]. by rewrite <- dom_empty_iff_L.
Qed.

(** X5. Whatever happens to a callback after it is constructed, in any
    order (a model attached, training begun, epochs ended normally or by
    an exception), it keeps the validation sets and the options it was
    constructed with, every validation set still has 2, 3 or 4 elements,
    every sequence of its history holds a value, every recorded bundle has
    as many predictions as targets, and [results] does not raise. *)
Theorem life_invariant cls sets v b roh rp cb st events :
  init sets v b roh rp = Ok cb →
  validation_sets (self (life cls (born cb st) events)) = sets ∧
  verbose (self (life cls (born cb st) events)) = v ∧
  batch_size (self (life cls (born cb st) events)) = b ∧
  record_original_history (self (life cls (born cb st) events)) = roh ∧
  record_predictions (self (life cls (born cb st) events)) = rp ∧
  Forall good_arity (validation_sets (self (life cls (born cb st) events))) ∧
  sequences_nonempty (history (self (life cls (born cb st) events))) ∧
  history_balanced (history (self (life cls (born cb st) events))) ∧
  ∃ r, results (self (life cls (born cb st) events)) = Ok r.
Proof.
  intros Hinit. apply init_ok_fields in Hinit as [Hgood Hcb].
  pose proof (life_sound cls sets v b roh rp events (born cb st) Hcb)
    as (Hsets & Hv & Hb & Hroh & Hrp & Hne & Hbal).
  repeat (split; [done|]). split; [by rewrite Hsets|].
  split; [done|]. split; [done|]. by apply results_ok_of_nonempty.
Qed.

Lemma life_invariant_witness :
  ∃ r, results (self (life base_class
                        (born {| record_predictions := true;
                                 validation_sets := to_py <$> example_specs;
                                 epoch := []; history := ∅; verbose := 1;
                                 batch_size := VNone;
                                 record_original_history := true;
                                 model := None |}
                              (gens example_start))
                        example_events)) = Ok r.
Proof.
  apply (life_invariant base_class (to_py <$> example_specs) 1 VNone true true
           _ (gens example_start) example_events).
  reflexivity.
Defined.

(** * Unpacking a validation set *)

Lemma length_str_chars (s : string) : length (str_chars s) = String.length s.
Proof. induction s as [|c s IH]; simpl; [done | by rewrite IH]. Qed.

Lemma py_len_iter (v : pyval) (n : nat) :
  py_len v = Ok n → ∃ items, py_iter v = Ok items ∧ length items = n.
Proof.
  destruct v; simpl; try done; intros [= <-]; eexists; split; try done.
  apply length_str_chars.
Qed.

Lemma py_unpack_length (n : nat) (v : pyval) (items : list pyval) :
  py_unpack n v = Ok items → length items = n.
Proof.
  unfold py_unpack. destruct (py_iter v) as [l|e]; simpl; [|done].
  case_bool_decide; [|done]. by intros [= <-].
Qed.

Lemma unpack_two (v first name : pyval) :
  py_len v = Ok 2%nat → py_iter v = Ok [first; name] →
  unpack_validation_set v =
    inner ← py_unpack 2 first;
    match inner with
    | [generator; steps] =>
        Ok {| validation_generator := generator; validation_steps := steps;
              validation_data := VNone; validation_targets := VNone;
              sample_weights := VNone; validation_set_name := name |}
    | _ => Raise ValueError
    end.
Proof.
  intros Hn Hiter. unfold unpack_validation_set.
  rewrite Hn. cbn [mbind outcome_bind].
  rewrite bool_decide_eq_true_2 by done.
  assert (py_unpack 2 v = Ok [first; name]) as ->; [|done].
  unfold py_unpack. by rewrite Hiter.
Qed.

(** X6. An element that construction accepted is unpacked at the end of
    an epoch unless it has two items and the first of them does not unpack
    into two; when it is unpacked, its last item is taken as the name of
    the validation set. *)
Theorem unpack_validation_set_accepted (v : pyval) :
  good_arity v →
  ∃ items,
    py_iter v = Ok items ∧
    (is_ok (unpack_validation_set v) = false ↔
       ∃ first name, items = [first; name] ∧ is_ok (py_unpack 2 first) = false) ∧
    (∀ u, unpack_validation_set v = Ok u →
          last items = Some (validation_set_name u)).
Proof.
  intros Hgood.
  assert (∃ n, py_len v = Ok n ∧ (n = 2 ∨ n = 3 ∨ n = 4)%nat) as (n & Hn & Hcases).
  { destruct Hgood as [H|[H|H]]; eexists; split; try exact H; auto. }
  destruct (py_len_iter v n Hn) as (items & Hiter & Hlen).
  exists items. split; [done|].
  destruct Hcases as [-> | [-> | ->]].
  - destruct items as [ | first [ | name [ | ? ?]]]; try done.
    rewrite (unpack_two v first name Hn Hiter).
    destruct (py_unpack 2 first) as [inner|e] eqn:Hinner; cbn.
    + pose proof (py_unpack_length _ _ _ Hinner) as Hl.
      destruct inner as [ | g [ | s [ | ? ?]]]; try done. cbn.
      split; [split; [done|]|].
      * intros (? & ? & [= <- <-] & Hf). by rewrite Hinner in Hf.
      * by intros u [= <-].
    + split; [split; [|done]|done].
      intros _. exists first, name. by rewrite Hinner.
  - destruct items as [ | a [ | b [ | c [ | ? ?]]]]; try done.
    unfold unpack_validation_set, py_unpack. rewrite Hn, Hiter. cbn.
    split; [split; [done|]|].
    + by intros (? & ? & [=] & _).
    + by intros u [= <-].
  - destruct items as [ | a [ | b [ | c [ | d [ | ? ?]]]]]; try done.
    unfold unpack_validation_set, py_unpack. rewrite Hn, Hiter. cbn.
    split; [split; [done|]|].
    + by intros (? & ? & [=] & _).
    + by intros u [= <-].
Qed.

Lemma unpack_validation_set_accepted_witness :
  ∃ items,
    py_iter malformed_set = Ok items ∧
    (is_ok (unpack_validation_set malformed_set) = false ↔
       ∃ first name, items = [first; name] ∧ is_ok (py_unpack 2 first) = false) ∧
    (∀ u, unpack_validation_set malformed_set = Ok u →
          last items = Some (validation_set_name u)).
Proof.
  apply (unpack_validation_set_accepted malformed_set).
  left. reflexivity.
Defined.

(** * The keys of one validation set *)

Lemma string_app_inj_l (a b c : string) : a +:+ b = a +:+ c → b = c.
Proof.
  induction a as [|x a IH]; [done|].
  change (String x (a +:+ b) = String x (a +:+ c) → b = c).
  intros [= H]. by apply IH.
Qed.

Lemma metric_key_inj (pre name m1 m2 : string) :
  metric_key pre name m1 = metric_key pre name m2 → m1 = m2.
Proof.
  unfold metric_key. intros H.
  by do 3 apply string_app_inj_l in H.
Qed.

Lemma predictions_key_metric (pre name metric : string) :
  predictions_key pre name = metric_key pre name metric →
  metric = "predictions".
Proof.
  unfold predictions_key, metric_key. intros H.
  do 2 apply string_app_inj_l in H.
  change ("_" +:+ "predictions" = "_" +:+ metric) in H.
  by apply string_app_inj_l in H.
Qed.

Lemma metric_entries_keys (pre name : string) (names : list string)
    (values : list pyval) :
  (metric_entries pre name names values).*1
    = metric_key pre name <$> take (length values) names.
Proof.
  unfold metric_entries. revert values.
  induction names as [|metric names IH]; intros [|x values]; try done.
  cbn [zip_with fmap list_fmap length take]. f_equal. apply IH.
Qed.

Lemma set_entries_NoDup (pre name : string) (names : list string)
    (record : bool) (p : PredictionsForOneEpoch) (values : list pyval) :
  NoDup names → "predictions" ∉ names →
  NoDup (set_entries pre name names record p values).*1.
Proof.
  intros Hnd Hpred. unfold set_entries. rewrite fmap_app, metric_entries_keys.
  assert (NoDup (metric_key pre name <$> take (length values) names)) as Hm.
  { apply NoDup_fmap_2_strong.
    - intros ?? _ _. apply metric_key_inj.
    - apply (sublist_NoDup _ names); [done|apply sublist_take]. }
  destruct record; [|done].
  cbn [fmap list_fmap app fst]. apply NoDup_cons. split; [|done].
  intros (metric & Hkey & Hin)%list_elem_of_fmap.
  apply predictions_key_metric in Hkey as ->.
  apply Hpred. by apply (subseteq_take (length values)).
Qed.

(** X7. When the metric names of the trained model are distinct and none
    is ['predictions'], a validation set that is evaluated and recorded
    adds at most one value to each key of the history: a key is left as it
    was or has exactly one more value at its end. *)
Theorem validate_one_value_per_key cls m tm spec w w' :
  model (self w) = Some tm →
  NoDup (metrics_names tm) →
  "predictions" ∉ metrics_names tm →
  validate cls (Some m) (to_py spec) w = (w', Ok tt) →
  ∀ k,
    history (self w') !! k = history (self w) !! k ∨
    ∃ v, history (self w') !! k
           = Some (default [] (history (self w) !! k) ++ [v]).
Proof.
  intros Hm Hnd Hpred H k.
  apply (validate_ok cls m tm) in H as (ev & _ & _ & -> & _); [|done].
  cbn [history set_history]. rewrite append_all_lookup.
  - destruct (_ !! k) as [v|]; [right; by exists v | by left].
  - by apply set_entries_NoDup.
Qed.

Lemma validate_one_value_per_key_witness :
  history
    (self (validate base_class (Some example_model)
             (to_py mismatched_spec) example_start).1) !! "held_out_loss"
    = history (self example_start) !! "held_out_loss" ∨
  ∃ v, history
         (self (validate base_class (Some example_model)
                  (to_py mismatched_spec) example_start).1) !! "held_out_loss"
       = Some (default [] (history (self example_start) !! "held_out_loss")
               ++ [v]).
Proof.
  apply (validate_one_value_per_key base_class example_model example_model
           mismatched_spec example_start).
  - reflexivity.
  - apply (bool_decide_unpack (NoDup ["loss"; "acc"])). vm_compute. exact I.
  - apply (bool_decide_unpack ("predictions" ∉ ["loss"; "acc"])).
    vm_compute. exact I.
  - vm_compute. reflexivity.
Defined.

(** * When the results cannot be recorded *)

Lemma record_metrics_overflow cls tm name values i w :
  model (self w) = Some tm →
  (i ≤ length (metrics_names tm))%nat →
  (length (metrics_names tm) < i + length values)%nat →
  record_metrics cls (VStr name) i values w =
    (recorded_world
       (append_all (metric_entries (prefix cls) name
                      (drop i (metrics_names tm)) values)
                   (history (self w)))
       (stdout w ++ printed (prefix cls) name (verbose (self w))
                            (drop i (metrics_names tm)) values) w,
     Raise IndexError).
Proof.
  revert i w. induction values as [|x values IH]; intros i w Hm Hi0 Hlen.
  - simpl in Hlen. lia.
  - cbn [record_metrics]. rewrite bind_run.
    destruct (metrics_names tm !! i) as [metric|] eqn:Hi.
    + rewrite (record_metric_run cls tm name i metric x w Hm Hi).
      pose proof (lookup_lt_Some _ _ _ Hi) as Hlt.
      rewrite IH; [|exact Hm|lia|simpl in *; lia].
      rewrite (drop_S _ _ _ Hi). rewrite recorded_world_twice.
      cbn [self stdout recorded_world history verbose set_history].
      f_equal. f_equal. unfold printed.
      case_bool_decide; simpl; rewrite ?app_nil_r, <- ?app_assoc; reflexivity.
    + apply lookup_ge_None in Hi. rewrite drop_ge by done.
      unfold metric_entries, printed. cbn [zip_with].
      unfold record_metric. mrun. rewrite Hm. mrun.
      unfold seq_getitem. cbv zeta.
      rewrite (bool_decide_eq_false_2 (Z.of_nat i < 0)) by lia.
      rewrite (bool_decide_eq_true_2 (0 ≤ Z.of_nat i)) by lia.
      rewrite Nat2Z.id. rewrite (proj2 (lookup_ge_None _ _) Hi).
      destruct (bool_decide _); simpl; rewrite ?app_nil_r;
        by rewrite recorded_world_id.
Qed.

Lemma zip_with_take_names {A B C} (f : A → B → C) (l : list A) (k : list B) :
  zip_with f l (take (length l) k) = zip_with f l k.
Proof.
  revert k. induction l as [|x l IH]; intros [|y k]; simpl; try done.
  by rewrite IH.
Qed.

(** X8. When the evaluate call returned more values than the trained
    model has metric names, recording raises [IndexError], after the
    bundle (when predictions are recorded) and the values that do have a
    name were appended to the history; the values beyond are dropped. *)
Theorem record_set_more_values_than_names cls tm name results values p w :
  model (self w) = Some tm →
  py_iter results = Ok values →
  (length (metrics_names tm) < length values)%nat →
  ∃ w',
    record_set cls (VStr name) results
      (if record_predictions (self w) then Some p else None) w
      = (w', Raise IndexError) ∧
    calls w' = calls w ∧
    history_after
      (history (self w))
      (set_entries (prefix cls) name (metrics_names tm)
                   (record_predictions (self w)) p
                   (take (length (metrics_names tm)) values))
      (history (self w')).
Proof.
  intros Hm Hiter Hlen. rewrite record_set_split, Hiter. cbv zeta.
  rewrite (record_metrics_overflow cls tm name values 0) by (try done; lia).
  eexists. split; [reflexivity|]. split; [done|].
  cbn [self recorded_world history set_history]. rewrite drop_0.
  unfold set_entries, metric_entries.
  rewrite <- append_all_app, zip_with_take_names.
  apply append_all_history_after.
Qed.

(** X9. When what the evaluate call returned cannot be iterated (a model
    without metrics returns a single number), recording raises at the loop
    over the results: no metric is recorded, but the bundle already is when
    predictions are recorded. *)
Theorem record_set_results_not_iterable cls name results e p w :
  py_iter results = Raise e →
  ∃ w',
    record_set cls (VStr name) results
      (if record_predictions (self w) then Some p else None) w
      = (w', Raise e) ∧
    calls w' = calls w ∧ stdout w' = stdout w ∧
    history_after
      (history (self w))
      (if record_predictions (self w)
       then [(predictions_key (prefix cls) name, Predictions p)] else [])
      (history (self w')).
Proof.
  intros Hiter. rewrite record_set_split, Hiter. cbv zeta.
  eexists. split; [reflexivity|]. split; [done|]. split; [done|].
  cbn [self recorded_world history set_history].
  apply append_all_history_after.
Qed.

(** X10. In the class as written the model to evaluate is [self.model];
    when none is attached and there is a validation set, the first of which
    unpacks (as every one of the three shapes does), [on_epoch_end] raises
    [AttributeError] once the epoch and the original logs are recorded,
    because the not-a-number defaults are built from
    [self.model.metrics_names]. *)
Theorem on_epoch_end_detached epoch_ logs w validation_set u rest :
  validation_sets (self w) = validation_set :: rest →
  unpack_validation_set validation_set = Ok u →
  model (self w) = None →
  on_epoch_end base_class epoch_ logs w
    = (after_logs epoch_ logs w, Raise AttributeError).
Proof.
  intros Hsets Hu Hm. rewrite on_epoch_end_loop, Hsets. cbv zeta.
  rewrite bool_decide_eq_false_2 by done.
  destruct (after_logs_config epoch_ logs w) as (_ & Hm1 & _ & _).
  cbn [base_class model_to_evaluate]. rewrite Hm1, Hm.
  cbn [for_each]. rewrite bind_run. unfold validate. rewrite bind_run.
  unfold lift at 1. rewrite Hu, bind_run.
  unfold evaluate_set. rewrite bind_run. cbn [gets]. by rewrite Hm1, Hm.
Qed.

Lemma record_set_more_values_than_names_witness :
  ∃ w',
    record_set base_class (VStr "held_out") (VSeq [loss_value; acc_value])
      (Some {| y_pred := []; y_true := [] |}) mismatched_start
      = (w', Raise IndexError) ∧
    calls w' = [] ∧
    history_after
      (history (self mismatched_start))
      (set_entries "" "held_out" ["loss"] true
                   {| y_pred := []; y_true := [] |}
                   (take 1 [loss_value; acc_value]))
      (history (self w')).
Proof.
  apply (record_set_more_values_than_names base_class short_model "held_out"
           (VSeq [loss_value; acc_value]) [loss_value; acc_value]
           {| y_pred := []; y_true := [] |} mismatched_start).
  - reflexivity.
  - reflexivity.
  - simpl. lia.
Defined.

Lemma record_set_results_not_iterable_witness :
  ∃ w',
    record_set base_class (VStr "held_out") loss_value
      (Some {| y_pred := []; y_true := [] |}) example_start
      = (w', Raise TypeError) ∧
    calls w' = [] ∧ stdout w' = [] ∧
    history_after
      (history (self example_start))
      [("held_out_predictions", Predictions {| y_pred := []; y_true := [] |})]
      (history (self w')).
Proof.
  apply (record_set_results_not_iterable base_class "held_out" loss_value
           TypeError {| y_pred := []; y_true := [] |} example_start).
  reflexivity.
Defined.

Lemma on_epoch_end_detached_witness :
  on_epoch_end base_class 1 example_logs detached_start
    = (after_logs 1 example_logs detached_start, Raise AttributeError).
Proof.
  apply (on_epoch_end_detached 1 example_logs detached_start
           (to_py (GeneratorSet 0 2 "gen"))
           (unpacked_of (GeneratorSet 0 2 "gen"))
           (to_py <$> tail example_specs)).
  - reflexivity.
  - reflexivity.
  - reflexivity.
Defined.

(** * What is printed *)

Lemma announces_refl (w : world) : announces w w.
Proof.
  exists []. split; [by destruct (self w)|].
  destruct (bool_decide _); by rewrite app_nil_r.
Qed.

Lemma announces_trans (w1 w2 w3 : world) :
  announces w1 w2 → announces w2 w3 → announces w1 w3.
Proof.
  intros (l & Hl & Hol) (k & Hk & Hok). exists (l ++ k). split.
  - by rewrite Hk, Hl, append_all_app.
  - rewrite Hok, Hol, Hl. cbn [verbose set_history].
    unfold scalars_of. rewrite omap_app.
    destruct (bool_decide _); by rewrite <- ?app_assoc, ?app_nil_r.
Qed.

Lemma same_self_announces (w w' : world) : same_self w w' → announces w w'.
Proof.
  intros [Hs Ho]. destruct (announces_refl w) as (l & Hl & Hol).
  exists l. by rewrite Hs, Ho.
Qed.

Lemma announces_record_metric cls name i result :
  keeps announces (record_metric cls name i result).
Proof.
  intros w. unfold record_metric. mrun.
  destruct name; try exact (announces_refl w).
  destruct (model (self w)) as [tm|]; [|exact (announces_refl w)].
  destruct (seq_getitem (metrics_names tm) (Z.of_nat i)) as [metric|e];
    [|exact (announces_refl w)].
  cbn [verbose set_history].
  exists [(((prefix cls +:+ s) +:+ "_") +:+ metric, Scalar result)].
  case_bool_decide; cbn [fst self stdout]; by rewrite ?app_nil_r.
Qed.

Lemma announces_record_metrics cls name results i :
  keeps announces (record_metrics cls name i results).
Proof.
  revert i. induction results as [|x results IH]; intros i; simpl.
  - apply (keeps_ret announces announces_refl).
  - apply (keeps_bind announces announces_trans);
      [apply announces_record_metric | intros _; apply IH].
Qed.

Lemma announces_record_set cls name results predictions :
  keeps announces (record_set cls name results predictions).
Proof.
  intros w. unfold record_set. rewrite bind_run. cbn [gets].
  rewrite bind_run.
  assert (announces w
            ((if record_predictions (self w) then
                named ← lift (str_add (prefix cls) name);
                match predictions with
                | Some p =>
                    history_append (named +:+ "_predictions") (Predictions p)
                | None => raise AssertionError
                end
              else mret ()) w).1) as H1.
  { destruct (record_predictions (self w)); [|exact (announces_refl w)].
    mrun. destruct name; try exact (announces_refl w).
    destruct predictions as [p|]; [|exact (announces_refl w)].
    exists [((prefix cls +:+ s) +:+ "_predictions", Predictions p)].
    split; [done|]. cbn [fst stdout].
    destruct (bool_decide _); by rewrite app_nil_r. }
  match type of H1 with
  | announces _ (?c).1 => destruct c as [w1 [[]|e]]; [|exact H1]
  end.
  apply (announces_trans _ w1); [exact H1|].
  apply (keeps_bind announces announces_trans).
  - apply (keeps_lift announces announces_refl).
  - intros items. apply announces_record_metrics.
Qed.

Lemma announces_validate cls model_ validation_set :
  keeps announces (validate cls model_ validation_set).
Proof.
  intros w. unfold validate. rewrite bind_run. unfold lift at 1.
  destruct (unpack_validation_set validation_set) as [u|e];
    [|apply announces_refl].
  rewrite bind_run.
  destruct (evaluate_set model_ u w) as [w1 [[results preds]|e]] eqn:He;
    apply evaluate_set_any in He as [Hs _].
  - apply (announces_trans _ w1); [by apply same_self_announces|].
    apply announces_record_set.
  - by apply same_self_announces.
Qed.

(** What the validation sets append and what is printed, whatever the
    outcome. *)
Lemma on_epoch_end_announces cls epoch_ logs w :
  ∃ entries,
    history (self (after_epoch cls epoch_ logs w)) =
      append_all entries (history (self (after_logs epoch_ logs w))) ∧
    stdout (after_epoch cls epoch_ logs w) =
      stdout w ++ (if bool_decide (verbose (self w) = 1)
                   then scalars_of entries else []).
Proof.
  unfold after_epoch. rewrite on_epoch_end_loop. cbv zeta.
  assert (stdout (after_logs epoch_ logs w) = stdout w ∧
          verbose (self (after_logs epoch_ logs w)) = verbose (self w))
    as [Ho Hv].
  { unfold after_logs. by rewrite record_epoch_and_logs_run. }
  case_bool_decide.
  - exists []. cbn [fst]. rewrite Ho.
    destruct (bool_decide _); by rewrite app_nil_r.
  - destruct (keeps_for_each announces announces_refl announces_trans
                (validate cls (model_to_evaluate cls
                                 (self (after_logs epoch_ logs w))))
                (validation_sets (self w))
                (announces_validate cls _)
                (after_logs epoch_ logs w)) as (entries & Hs & Hout).
    exists entries. rewrite Hs, Hout, Ho, Hv. done.
Qed.

(** X11. When [on_epoch_end] returns normally with a model to evaluate,
    what it has printed is, validation set by validation set in the order
    of the list, and within a set in the order of the values that its
    evaluate call returned, one line per metric value with its key when
    [verbose] is 1, and nothing otherwise; neither the prediction bundles
    nor the original logs are printed. *)
Theorem on_epoch_end_prints cls epoch_ logs w w' m tm specs :
  validation_sets (self w) = to_py <$> specs →
  model (self w) = Some tm →
  model_to_evaluate cls (self (after_logs epoch_ logs w)) = Some m →
  on_epoch_end cls epoch_ logs w = (w', Ok tt) →
  ∃ evs,
    Forall2 (fun spec ev =>
               py_iter (returned ev) = Ok (values ev) ∧
               evaluate_calls (log ev) =
                 [evaluation_call (batch_size (self w)) spec ev])
            specs evs ∧
    calls w' = calls w ++ concat (log <$> evs) ∧
    run_calls m (gens w) (concat (log <$> evs)).*1
      = (gens w', concat (log <$> evs)) ∧
    stdout w' =
      stdout w ++
        concat (zip_with
                  (fun spec ev =>
                     if bool_decide (verbose (self w) = 1) then
                       zip_with
                         (fun metric x =>
                            (metric_key (prefix cls) (spec_name spec) metric, x))
                         (metrics_names tm) (values ev)
                     else [])
                  specs evs).
Proof.
  intros Hsets Hm Hmodel H.
  pose proof (on_epoch_end_performed cls epoch_ logs w m (or_introl Hmodel))
    as Hperf.
  rewrite H in Hperf. cbn [fst] in Hperf.
  rewrite (on_epoch_end_specs _ _ _ _ _ Hsets), Hmodel in H.
  destruct (after_logs_config epoch_ logs w) as (_ & Hm1 & Hsize & Hrp).
  apply (for_each_validate_ok cls m tm) in H as (evs & Hevs & Hc & _ & Ho);
    [|by rewrite Hm1].
  rewrite after_logs_calls in Hc. rewrite Hsize, Hrp in Hevs.
  assert (stdout (after_logs epoch_ logs w) = stdout w ∧
          verbose (self (after_logs epoch_ logs w)) = verbose (self w))
    as [Ho1 Hv1].
  { unfold after_logs. by rewrite record_epoch_and_logs_run. }
  rewrite Ho1, Hv1 in Ho.
  exists evs. split; [|split; [done|split; [|exact Ho]]].
  - eapply Forall2_impl; [exact Hevs|]. intros spec ev ((? & _) & ? & _). done.
  - by apply (performed_log m w w').
Qed.

Lemma on_epoch_end_prints_witness :
  ∃ evs,
    Forall2 (fun spec ev =>
               py_iter (returned ev) = Ok (values ev) ∧
               evaluate_calls (log ev) = [evaluation_call VNone spec ev])
            example_specs evs ∧
    calls example_end = concat (log <$> evs) ∧
    run_calls example_model (gens example_start) (concat (log <$> evs)).*1
      = (gens example_end, concat (log <$> evs)) ∧
    stdout example_end =
      concat (zip_with
                (fun spec ev =>
                   zip_with
                     (fun metric x => (metric_key "" (spec_name spec) metric, x))
                     ["loss"; "acc"] (values ev))
                example_specs evs).
Proof.
  apply (on_epoch_end_prints base_class 1 example_logs
           example_start example_end example_model example_model
           example_specs);
    vm_compute; reflexivity.
Defined.

(** X20. Whether [on_epoch_end] returns or raises: with [verbose] other
    than 1 it prints nothing; and every line it prints shows, with its key,
    a value that this invocation appended to the history under that key
    while it evaluated the validation sets. *)
Theorem on_epoch_end_prints_recorded cls epoch_ logs w :
  (verbose (self w) ≠ 1 →
   stdout (after_epoch cls epoch_ logs w) = stdout w) ∧
  ∃ new,
    stdout (after_epoch cls epoch_ logs w) = stdout w ++ new ∧
    ∀ k v,
      (k, v) ∈ new →
      ∃ vs,
        history (self (after_epoch cls epoch_ logs w)) !! k =
          Some (default [] (history (self (after_logs epoch_ logs w)) !! k)
                ++ vs) ∧
        Scalar v ∈ vs.
Proof.
  destruct (on_epoch_end_announces cls epoch_ logs w) as (entries & Hh & Ho).
  split.
  - intros Hv. rewrite Ho, bool_decide_eq_false_2 by done.
    by rewrite app_nil_r.
  - eexists. split; [exact Ho|]. intros k v Hin.
    case_bool_decide; [|by apply elem_of_nil in Hin].
    apply list_elem_of_omap in Hin as ([k' x] & Hin & Hx).
    destruct x as [x|p]; [|done]. injection Hx as -> ->.
    exists (appended_under k entries). split.
    + rewrite Hh, (append_all_history_after entries _ k).
      assert (Scalar v ∈ appended_under k entries) as Hv.
      { apply list_elem_of_fmap. exists (k, Scalar v). split; [done|].
        by apply list_elem_of_filter. }
      destruct (appended_under k entries); [by apply elem_of_nil in Hv|done].
    + apply list_elem_of_fmap. exists (k, Scalar v). split; [done|].
      by apply list_elem_of_filter.
Qed.

Lemma on_epoch_end_prints_recorded_witness :
  stdout (after_epoch base_class 1 example_logs silent_start)
    = stdout silent_start.
Proof.
  apply (proj1 (on_epoch_end_prints_recorded base_class 1 example_logs
                  silent_start)).
  vm_compute. discriminate.
Defined.

(** * Edges of a generator-shaped set *)

(** X12. When the generator-based evaluate leaves the generator exhausted
    and predictions are recorded over at least one step, the first
    [next] raises [StopIteration]: the validation set raises it after its
    evaluate call, and nothing of it is recorded, its metric values
    included. *)
Theorem validate_generator_exhausted cls m g steps name w st results :
  record_predictions (self w) = true →
  0 < steps →
  evaluate_generator m (VGen g) (VInt steps) (gens w) = (st, Ok results) →
  default [] (st !! g) = [] →
  ∃ w',
    validate cls (Some m) (to_py (GeneratorSet g steps name)) w
      = (w', Raise StopIteration) ∧
    self w' = self w ∧
    calls w' = calls w ++
      [(CallEvaluateGenerator (VGen g) (VInt steps), Ok results);
       (CallNext (VGen g), Raise StopIteration)].
Proof.
  intros Hrp Hsteps Hev Hempty. rewrite validate_run.
  unfold evaluate_set. cbn [unpacked_of validation_generator validation_steps].
  rewrite bind_run. unfold external at 1. rewrite Hev.
  unfold with_predictions. rewrite bind_run. cbn [gets self]. rewrite Hrp.
  rewrite bind_run. unfold generator_predictions. rewrite bind_run.
  unfold reformatted_predictions. rewrite bind_run. cbn [lift py_range].
  destruct (Z.to_nat steps) as [|n] eqn:Hn; [lia|].
  rewrite bind_run. cbn [predict_batches]. rewrite bind_run.
  cbn [py_next]. unfold external at 1. cbn [gens]. unfold next_of.
  rewrite Hempty. eexists. split; [reflexivity|].
  cbn [self calls]. by rewrite <- app_assoc.
Qed.

Lemma validate_generator_exhausted_witness :
  ∃ w',
    validate base_class (Some example_model) (to_py (GeneratorSet 0 2 "gen"))
             short_start
      = (w', Raise StopIteration) ∧
    self w' = self short_start ∧
    calls w' =
      [(CallEvaluateGenerator (VGen 0) (VInt 2),
        Ok (VSeq [loss_value; acc_value]));
       (CallNext (VGen 0), Raise StopIteration)].
Proof.
  apply (validate_generator_exhausted base_class example_model 0%nat 2 "gen"
           short_start
           (<[0%nat := []]> (gens short_start))
           (VSeq [loss_value; acc_value])).
  - reflexivity.
  - lia.
  - vm_compute. reflexivity.
  - vm_compute. reflexivity.
Defined.

(** X13. With a step count of zero or less and predictions recorded, no
    batch is drawn and nothing is predicted: a generator-shaped set that is
    evaluated and recorded has made the evaluate call only, on the model to
    evaluate, and its bundle is empty. *)
Theorem validate_generator_no_steps cls m tm g steps name w w' :
  record_predictions (self w) = true →
  steps ≤ 0 →
  model (self w) = Some tm →
  validate cls (Some m) (to_py (GeneratorSet g steps name)) w = (w', Ok tt) →
  ∃ results values,
    py_iter results = Ok values ∧
    calls w' = calls w ++
      [(CallEvaluateGenerator (VGen g) (VInt steps), Ok results)] ∧
    evaluate_generator m (VGen g) (VInt steps) (gens w)
      = (gens w', Ok results) ∧
    history_after
      (history (self w))
      ((predictions_key (prefix cls) name,
        Predictions {| y_pred := []; y_true := [] |})
       :: metric_entries (prefix cls) name (metrics_names tm) values)
      (history (self w')).
Proof.
  intros Hrp Hsteps Hm H.
  pose proof (performed_validate m cls (Some m)
                (to_py (GeneratorSet g steps name)) (or_introl eq_refl) w)
    as Hperf.
  rewrite H in Hperf. cbn [fst] in Hperf.
  apply (validate_ok cls m tm) in H as (ev & (Hok & _ & Hgen) & Hc & Hs & _);
    [|done].
  destruct (Hgen Hrp g steps name eq_refl)
    as (batches & Hlen & _ & Hlog & [Hlp _] & [Hlt _]).
  replace (Z.to_nat steps) with 0%nat in Hlen by lia.
  apply nil_length_inv in Hlen as ->. cbn in Hlp, Hlt, Hlog.
  apply nil_length_inv in Hlp. apply nil_length_inv in Hlt.
  exists (returned ev), (values ev). split; [apply Hok|].
  rewrite Hlog in Hc. split; [done|]. split.
  { apply (performed_log m w w' _ Hperf) in Hc. cbn in Hc.
    destruct (evaluate_generator m (VGen g) (VInt steps) (gens w)) as [st r].
    by injection Hc as -> ->. }
  rewrite Hs, Hrp. cbn [history set_history].
  unfold evaluation_entries, set_entries. cbn [spec_name app].
  destruct (bundle ev) as [yp yt]. cbn in Hlp, Hlt. subst.
  apply append_all_history_after.
Qed.

Lemma validate_generator_no_steps_witness :
  ∃ results values,
    py_iter results = Ok values ∧
    calls (validate base_class (Some example_model)
             (to_py (GeneratorSet 0 0 "gen")) example_start).1
      = [(CallEvaluateGenerator (VGen 0) (VInt 0), Ok results)] ∧
    evaluate_generator example_model (VGen 0) (VInt 0) (gens example_start)
      = (gens (validate base_class (Some example_model)
                 (to_py (GeneratorSet 0 0 "gen")) example_start).1,
         Ok results) ∧
    history_after
      (history (self example_start))
      ((predictions_key "" "gen",
        Predictions {| y_pred := []; y_true := [] |})
       :: metric_entries "" "gen" ["loss"; "acc"] values)
      (history (self (validate base_class (Some example_model)
                        (to_py (GeneratorSet 0 0 "gen")) example_start).1)).
Proof.
  apply (validate_generator_no_steps base_class example_model example_model
           0%nat 0 "gen" example_start).
  - reflexivity.
  - lia.
  - reflexivity.
  - vm_compute. reflexivity.
Defined.

(** * Predictions of an array-shaped set *)

Lemma zipped_predictions_ok m data targets w w' p :
  zipped_predictions m data targets w = (w', Ok p) →
  ∃ predicted,
    self w' = self w ∧
    calls w' = calls w ++ [(CallPredict data VNone, Ok predicted)] ∧
    py_zip_star predicted = Ok (y_pred p) ∧
    py_zip_star targets = Ok (y_true p).
Proof.
  unfold zipped_predictions. intros H.
  apply bind_ok in H as (predicted & w1 & Hp & H).
  apply external_ok in Hp as (Hs & _ & Hc).
  apply bind_ok in H as (yp & ? & [Hyp ->]%lift_ok & H).
  apply bind_ok in H as (yt & ? & [Hyt ->]%lift_ok & H).
  injection H as <- <-. by exists predicted.
Qed.

(** The data, the targets and the sample weights of an array-shaped spec
    (none for a generator-shaped one). *)
Lemma evaluate_set_arrays_ok m data targets weights w w' results p :
  record_predictions (self w) = true →
  (results ← external (CallEvaluate data targets 0 weights (batch_size (self w)))
                      (evaluate m data targets 0 weights (batch_size (self w)));
   with_predictions results (array_predictions m data targets)) w
    = (w', Ok (results, Some p)) →
  ∃ predicted,
    self w' = self w ∧
    calls w' = calls w ++
      [(CallEvaluate data targets 0 weights (batch_size (self w)), Ok results);
       (CallPredict data VNone, Ok predicted)] ∧
    py_zip_star predicted = Ok (y_pred p) ∧
    py_zip_star targets = Ok (y_true p) ∧
    length (y_pred p) = length (y_true p).
Proof.
  intros Hrp H.
  apply bind_ok in H as (res & w1 & Hev & H).
  apply external_ok in Hev as (Hs1 & _ & Hc1).
  unfold with_predictions in H.
  apply bind_ok in H as (record & ? & [= <- <-] & H).
  rewrite Hs1, Hrp in H.
  apply bind_ok in H as (q & w2 & Hq & H). injection H as <- <- <-.
  unfold array_predictions in Hq.
  apply bind_ok in Hq as (q' & w3 & Hq' & Hq).
  apply assert_same_length_ok in Hq as (-> & -> & Hlen).
  apply zipped_predictions_ok in Hq' as (predicted & Hs & Hc & Hyp & Hyt).
  exists predicted. split; [congruence|].
  split; [by rewrite Hc, Hc1, <- app_assoc|]. done.
Qed.

(** X14. An array-shaped set, with or without sample weights, that is
    evaluated and recorded with predictions on has made two calls: the
    array-based evaluate, then one [predict] on the whole data, without a
    batch size and without the sample weights.  Its bundle is
    [zip( * predictions)] against [zip( * targets)], of equal lengths. *)
Theorem validate_arrays_predictions cls m tm spec data targets weights w w' :
  array_shaped spec data targets weights →
  record_predictions (self w) = true →
  model (self w) = Some tm →
  validate cls (Some m) (to_py spec) w = (w', Ok tt) →
  ∃ results values predicted p,
    calls w' = calls w ++
      [(CallEvaluate data targets 0 weights (batch_size (self w)), Ok results);
       (CallPredict data VNone, Ok predicted)] ∧
    py_iter results = Ok values ∧
    py_zip_star predicted = Ok (y_pred p) ∧
    py_zip_star targets = Ok (y_true p) ∧
    length (y_pred p) = length (y_true p) ∧
    history_after
      (history (self w))
      ((predictions_key (prefix cls) (spec_name spec), Predictions p)
       :: metric_entries (prefix cls) (spec_name spec) (metrics_names tm)
            values)
      (history (self w')).
Proof.
  intros Hshape Hrp Hm H.
  assert (unpacked_of spec =
            {| validation_generator := VNone; validation_steps := VNone;
               validation_data := data; validation_targets := targets;
               sample_weights := weights;
               validation_set_name := VStr (spec_name spec) |}) as Hu.
  { destruct Hshape as [[-> ->]| ->]; reflexivity. }
  rewrite validate_run in H.
  destruct (evaluate_set (Some m) (unpacked_of spec) w)
    as [w1 [[results preds]|e]] eqn:He; [|done].
  pose proof He as He'.
  apply evaluate_set_run in He' as (_ & _ & ret & new & _ & _ & Hr).
  destruct (Hr results preds eq_refl) as (_ & p & Hp & _).
  clear Hr. rewrite Hrp in Hp. subst preds.
  unfold evaluate_set in He. rewrite Hu in He.
  cbn [validation_generator validation_data validation_targets
       sample_weights] in He.
  rewrite bind_run in He. cbn [gets] in He.
  apply evaluate_set_arrays_ok in He
    as (predicted & Hs & Hc & Hyp & Hyt & Hlen); [|done].
  assert (record_predictions (self w1) = true) as Hrp1 by (by rewrite Hs).
  change (Some p) with (if true then Some p else None) in H.
  rewrite <- Hrp1 in H.
  apply (record_set_ok cls tm) in H as (vals & Hit & _ & ->);
    [|by rewrite Hs].
  exists results, vals, predicted, p.
  repeat (split; [done|]).
  cbn [self recorded_world history set_history]. rewrite Hrp1, Hs.
  apply append_all_history_after.
Qed.

Lemma validate_arrays_predictions_witness :
  ∃ results values predicted p,
    calls (validate base_class (Some example_model) (to_py mismatched_spec)
             example_start).1
      = [(CallEvaluate (VSeq [VArr [VInt 1; VInt 2]])
                       (VSeq [VArr [VInt 0; VInt 1]]) 0 VNone VNone,
          Ok results);
         (CallPredict (VSeq [VArr [VInt 1; VInt 2]]) VNone, Ok predicted)] ∧
    py_iter results = Ok values ∧
    py_zip_star predicted = Ok (y_pred p) ∧
    py_zip_star (VSeq [VArr [VInt 0; VInt 1]]) = Ok (y_true p) ∧
    length (y_pred p) = length (y_true p) ∧
    history_after
      (history (self example_start))
      ((predictions_key "" "held_out", Predictions p)
       :: metric_entries "" "held_out" ["loss"; "acc"] values)
      (history (self (validate base_class (Some example_model)
                        (to_py mismatched_spec) example_start).1)).
Proof.
  apply (validate_arrays_predictions base_class example_model example_model
           mismatched_spec (VSeq [VArr [VInt 1; VInt 2]])
           (VSeq [VArr [VInt 0; VInt 1]]) VNone example_start).
  - left. split; reflexivity.
  - reflexivity.
  - reflexivity.
  - vm_compute. reflexivity.
Defined.

(** * [zip( * ...)] *)

Lemma min_lengths_bounds (a : nat) (l : list nat) :
  (foldr Nat.min a l ≤ a)%nat ∧
  (∀ x, x ∈ l → foldr Nat.min a l ≤ x)%nat ∧
  (foldr Nat.min a l = a ∨ foldr Nat.min a l ∈ l).
Proof.
  induction l as [|y l (IH1 & IH2 & IH3)]; simpl.
  - split; [done|]. split; [by intros x ?%elem_of_nil | by left].
  - split; [lia|]. split.
    + intros x [->|Hx]%elem_of_cons; [lia|]. specialize (IH2 x Hx). lia.
    + destruct (Nat.min_spec y (foldr Nat.min a l)) as [[_ ->]|[_ ->]].
      * right. by left.
      * destruct IH3 as [?|?]; [by left | right; by right].
Qed.

Lemma zip_rows_spec (fuel : nat) (cols : list (list pyval)) :
  length (zip_rows fuel cols) = foldr Nat.min fuel (length <$> cols) ∧
  ∀ j, (j < length (zip_rows fuel cols))%nat →
       ∃ row, Forall2 (fun c x => c !! j = Some x) cols row ∧
              zip_rows fuel cols !! j = Some (VSeq row).
Proof.
  revert cols. induction fuel as [|fuel IH]; intros cols.
  - split; [|simpl; lia]. simpl. destruct (min_lengths_bounds 0 (length <$> cols)) as [? _]. lia.
  - cbn [zip_rows]. destruct (mapM head cols) as [row|] eqn:Hrow.
    + apply mapM_Some in Hrow. destruct (IH (tail <$> cols)) as [IHl IHr].
      split.
      * cbn [length]. rewrite IHl. clear IHl IHr.
        induction Hrow as [|c x cols row Hc _ IHc]; [done|].
        destruct c as [|y c]; [done|]. cbn [fmap list_fmap foldr tail length].
        cbn [fmap list_fmap] in IHc. rewrite <- IHc. lia.
      * intros [|j] Hj.
        -- exists row. split; [|done].
           eapply Forall2_impl; [exact Hrow|]. intros c x Hc.
           by rewrite <- head_lookup.
        -- cbn [length] in Hj. destruct (IHr j) as (row' & Hrow' & Hj'); [lia|].
           exists row'. split; [|done].
           apply Forall2_fmap_l in Hrow'.
           eapply Forall2_impl; [exact Hrow'|]. intros c x Hc.
           by rewrite <- lookup_tail.
    + split; [|simpl; lia]. cbn [length]. symmetry.
      assert ([] ∈ cols) as Hin.
      { apply mapM_None, Exists_exists in Hrow as ([|y c] & Hc & Hhead);
          done. }
      destruct (min_lengths_bounds (S fuel) (length <$> cols)) as (_ & H2 & _).
      specialize (H2 0%nat). rewrite list_elem_of_fmap in H2.
      assert (foldr Nat.min (S fuel) (length <$> cols) ≤ 0)%nat; [|lia].
      apply H2. by exists [].
Qed.

(** X15. [list(zip( * v))] has as many tuples as the shortest item of [v]
    has items (none when [v] has no item), and its [j]-th tuple holds the
    [j]-th item of each item of [v], in order. *)
Theorem py_zip_star_rows (v : pyval) (rows : list pyval) :
  py_zip_star v = Ok rows →
  ∃ cols,
    (outs ← py_iter v; traverse py_iter outs) = Ok cols ∧
    (∀ c, c ∈ cols → length rows ≤ length c)%nat ∧
    (cols ≠ [] → ∃ c, c ∈ cols ∧ length c = length rows) ∧
    (cols = [] → rows = []) ∧
    ∀ j, (j < length rows)%nat →
         ∃ row, Forall2 (fun c x => c !! j = Some x) cols row ∧
                rows !! j = Some (VSeq row).
Proof.
  unfold py_zip_star. destruct (py_iter v) as [outs|e]; cbn; [|done].
  destruct (traverse py_iter outs) as [cols|e]; cbn; [|done].
  intros H. exists cols. split; [done|].
  destruct cols as [|c0 cols].
  - injection H as <-. split; [by intros c ?%elem_of_nil|].
    split; [done|]. split; [done|]. simpl. lia.
  - injection H as <-.
    destruct (zip_rows_spec (length c0) (c0 :: cols)) as [Hlen Hrows].
    destruct (min_lengths_bounds (length c0) (length <$> c0 :: cols))
      as (H1 & H2 & H3).
    split; [|split; [|split; [done|exact Hrows]]].
    + intros c Hc. rewrite Hlen. apply H2, list_elem_of_fmap. by exists c.
    + intros _. rewrite Hlen. destruct H3 as [H3|H3].
      * exists c0. split; [by left|]. by rewrite H3.
      * apply list_elem_of_fmap in H3 as (c & Hc & Hin). by exists c.
Qed.

Lemma py_zip_star_rows_witness :
  ∃ cols,
    (outs ← py_iter (VSeq [VArr [VInt 1; VInt 2; VInt 3]; VSeq [VInt 4; VInt 5]]);
     traverse py_iter outs) = Ok cols ∧
    (∀ c, c ∈ cols → length [VSeq [VInt 1; VInt 4]; VSeq [VInt 2; VInt 5]]
                       ≤ length c)%nat ∧
    (cols ≠ [] →
     ∃ c, c ∈ cols ∧
          length c = length [VSeq [VInt 1; VInt 4]; VSeq [VInt 2; VInt 5]]) ∧
    (cols = [] → [VSeq [VInt 1; VInt 4]; VSeq [VInt 2; VInt 5]] = []) ∧
    ∀ j, (j < length [VSeq [VInt 1; VInt 4]; VSeq [VInt 2; VInt 5]])%nat →
         ∃ row, Forall2 (fun c x => c !! j = Some x) cols row ∧
                [VSeq [VInt 1; VInt 4]; VSeq [VInt 2; VInt 5]] !! j
                  = Some (VSeq row).
Proof.
  apply (py_zip_star_rows
           (VSeq [VArr [VInt 1; VInt 2; VInt 3]; VSeq [VInt 4; VInt 5]])).
  reflexivity.
Defined.

(** * A batch given as one array *)

Lemma traverse_total {A B} (f : A → outcome B) (l : list A) :
  Forall (fun x => ∃ y, f x = Ok y) l → ∃ ys, traverse f l = Ok ys.
Proof.
  induction 1 as [|x l [y Hy] _ [ys IH]]; simpl; [by eexists|].
  rewrite Hy. simpl. rewrite IH. by eexists.
Qed.

(** X16. The reformatting takes the outputs of a batch to be a list of
    arrays.  When they are one two-dimensional array instead, of [n] rows
    of [d] entries, it yields [d] rows and not [n]: the [j]-th one holds
    the [j]-th entry of every row of the array. *)
Theorem reformat_batch_single_array (rows : list pyval) (d : nat) :
  rows ≠ [] →
  Forall (fun r => ∃ entries, r = VArr entries ∧ length entries = d) rows →
  ∃ out,
    reformat_batch (VArr rows) = Ok out ∧
    length out = d ∧
    ∀ j, (j < d)%nat →
         ∃ col, out !! j = Some (VSeq col) ∧
                length col = length rows ∧
                Forall2 (fun r x => py_getitem r (Z.of_nat j) = Ok x) rows col.
Proof.
  intros Hne Hrows.
  assert (batch_length (VArr rows) = d) as Hd.
  { unfold batch_length. destruct rows as [|r0 rows]; [done|].
    apply Forall_cons in Hrows as [(entries & -> & Hlen) _]. done. }
  assert (∃ out, reformat_batch (VArr rows) = Ok out) as [out Hout].
  { unfold reformat_batch. destruct rows as [|r0 rows]; [done|].
    pose proof Hrows as Hall.
    apply Forall_cons in Hrows as [(entries & -> & Hlen) _].
    assert (first_shape0 (VArr (VArr entries :: rows)) = Ok (length entries))
      as -> by reflexivity.
    cbn [mbind outcome_bind].
    rewrite Hlen. apply traverse_total, Forall_forall.
    intros j [_ Hj]%elem_of_seq. unfold example_row. cbn [py_iter mbind outcome_bind].
    destruct (traverse_total (fun output => py_getitem output (Z.of_nat j))
                (VArr entries :: rows)) as [col ->]; [|by eexists].
    eapply Forall_impl; [exact Hall|]. intros r (es & -> & Hes). cbn.
    destruct (lookup_lt_is_Some_2 es j) as [x Hx]; [lia|].
    exists x. by apply seq_getitem_nat. }
  exists out. split; [done|].
  apply reformat_batch_ok in Hout as [Hlen Hex]. rewrite Hd in *.
  split; [done|]. intros j Hj.
  destruct (Hex j Hj) as (row & Hrow & Hlook).
  apply example_row_ok in Hrow as (items & col & [= <-] & -> & Hcol).
  exists col. split; [done|]. split; [|done].
  symmetry. by apply Forall2_length in Hcol.
Qed.

Lemma reformat_batch_single_array_witness :
  ∃ out,
    reformat_batch (VArr [VArr [VInt 1; VInt 2; VInt 3];
                          VArr [VInt 4; VInt 5; VInt 6]]) = Ok out ∧
    length out = 3%nat ∧
    ∀ j, (j < 3)%nat →
         ∃ col, out !! j = Some (VSeq col) ∧
                length col = 2%nat ∧
                Forall2 (fun r x => py_getitem r (Z.of_nat j) = Ok x)
                        [VArr [VInt 1; VInt 2; VInt 3];
                         VArr [VInt 4; VInt 5; VInt 6]] col.
Proof.
  apply (reformat_batch_single_array
           [VArr [VInt 1; VInt 2; VInt 3]; VArr [VInt 4; VInt 5; VInt 6]] 3).
  - done.
  - repeat constructor; by eexists.
Defined.

(** * The history after an epoch, and [results] on it *)

Lemma on_epoch_end_from_logs cls epoch_ logs w :
  ∃ entries,
    history (self (after_epoch cls epoch_ logs w)) =
      append_all entries (history (self (after_logs epoch_ logs w))).
Proof.
  unfold after_epoch. rewrite on_epoch_end_loop. cbv zeta.
  case_bool_decide; [by exists []|].
  destruct (for_each_validate_grows cls
              (model_to_evaluate cls (self (after_logs epoch_ logs w)))
              (validation_sets (self w)) (after_logs epoch_ logs w))
    as (entries & -> & _).
  by exists entries.
Qed.

Lemma after_logs_history epoch_ logs w :
  history (self (after_logs epoch_ logs w)) =
    if record_original_history (self w)
    then append_all (log_entries (logs_or_empty logs)) (history (self w))
    else history (self w).
Proof. unfold after_logs. by rewrite record_epoch_and_logs_run. Qed.

(** X17. With [record_original_history] on, the value of every key of the
    logs is in the history after [on_epoch_end], right after the values the
    key had before, also when a validation set raised; what the validation
    sets append under the same key comes after it. *)
Theorem on_epoch_end_log_kept cls epoch_ logs w k v :
  record_original_history (self w) = true →
  logs_or_empty logs !! k = Some v →
  ∃ more,
    history (self (after_epoch cls epoch_ logs w)) !! k =
      Some (default [] (history (self w) !! k) ++ Scalar v :: more).
Proof.
  intros Hroh Hk.
  destruct (on_epoch_end_from_logs cls epoch_ logs w) as [entries ->].
  destruct (append_all_extends entries
              (history (self (after_logs epoch_ logs w))) k
              (default [] (history (self w) !! k) ++ [Scalar v]))
    as [more Hmore].
  { by rewrite after_logs_history, Hroh, log_entries_lookup, Hk. }
  exists more. by rewrite Hmore, <- app_assoc.
Qed.

Lemma on_epoch_end_log_kept_witness :
  ∃ more,
    history (self (after_epoch base_class 1 example_logs mismatched_start))
      !! "loss" =
      Some (default [] (history (self mismatched_start) !! "loss")
            ++ Scalar loss_value :: more).
Proof.
  apply (on_epoch_end_log_kept base_class 1 example_logs mismatched_start
           "loss" loss_value).
  - reflexivity.
  - reflexivity.
Defined.

Lemma append_all_last_value (entries : list (string * recorded))
    (h : gmap string (list recorded)) (k : string) (v : recorded) :
  Forall (fun entry => entry.2 = v) entries →
  k ∈ entries.*1 →
  ∃ l, append_all entries h !! k = Some (l ++ [v]).
Proof.
  induction entries as [|[k' v'] entries IH] using rev_ind; intros Hall Hin.
  - by apply elem_of_nil in Hin.
  - apply Forall_app in Hall as [Hall Hv]. apply Forall_inv in Hv.
    cbn in Hv. subst v'. rewrite append_all_app.
    change (append_all [(k', v)] (append_all entries h))
      with (setdefault_append k' v (append_all entries h)).
    unfold setdefault_append. destruct (decide (k' = k)) as [->|Hne].
    + rewrite lookup_insert_eq. by eexists.
    + rewrite lookup_insert_ne by done. apply IH; [done|].
      rewrite fmap_app in Hin. apply elem_of_app in Hin as [?|Hin]; [done|].
      apply list_elem_of_singleton in Hin. done.
Qed.

Lemma results_last_appended (self : AdditionalValidationSets) k l v :
  sequences_nonempty (history self) →
  history self !! k = Some (l ++ [v]) →
  ∃ r, results self = Ok (Some r) ∧ r !! k = Some v.
Proof.
  intros Hne Hk. eexists. split.
  - apply results_run; [|done]. intros Hempty.
    by rewrite Hempty, lookup_empty in Hk.
  - rewrite lookup_fmap, Hk. cbn. by rewrite last_snoc.
Qed.

(** X18. After an invocation without a model to evaluate and without
    predictions recorded, [results] gives not-a-number under the key of
    every metric name of the trained model, for every validation set. *)
Theorem results_without_model cls epoch_ logs w tm specs spec metric :
  validation_sets (self w) = to_py <$> specs →
  model (self w) = Some tm →
  model_to_evaluate cls (self (after_logs epoch_ logs w)) = None →
  record_predictions (self w) = false →
  sequences_nonempty (history (self w)) →
  spec ∈ specs →
  metric ∈ metrics_names tm →
  ∃ r,
    results (self (after_epoch cls epoch_ logs w)) = Ok (Some r) ∧
    r !! metric_key (prefix cls) (spec_name spec) metric = Some (Scalar nan).
Proof.
  intros Hsets Hm Hmodel Hrp Hne Hspec Hmetric.
  pose proof (on_epoch_end_sequences_nonempty cls epoch_ logs w Hne) as Hne'.
  fold (after_epoch cls epoch_ logs w) in Hne'.
  assert (history (self (after_epoch cls epoch_ logs w)) =
            append_all
              (concat (no_model_entries (prefix cls) (metrics_names tm) false
                         <$> specs))
              (history (self (after_logs epoch_ logs w)))) as Hh.
  { unfold after_epoch.
    rewrite (on_epoch_end_specs _ _ _ _ _ Hsets), Hmodel.
    destruct (after_logs_config epoch_ logs w) as (_ & Hm1 & _ & Hrp1).
    destruct (for_each_validate_none cls tm specs (after_logs epoch_ logs w))
      as [out ->]; [by rewrite Hm1|].
    cbn [fst self recorded_world history set_history]. by rewrite Hrp1, Hrp. }
  destruct (append_all_last_value
              (concat (no_model_entries (prefix cls) (metrics_names tm) false
                         <$> specs))
              (history (self (after_logs epoch_ logs w)))
              (metric_key (prefix cls) (spec_name spec) metric) (Scalar nan))
    as [l Hl].
  - apply Forall_concat, Forall_fmap, Forall_true. intros s.
    unfold no_model_entries. cbn [app]. apply Forall_fmap, Forall_true. done.
  - apply list_elem_of_fmap.
    exists (metric_key (prefix cls) (spec_name spec) metric, Scalar nan).
    split; [done|]. apply list_elem_of_In, in_concat.
    exists (no_model_entries (prefix cls) (metrics_names tm) false spec).
    split; apply list_elem_of_In; [apply list_elem_of_fmap; by exists spec|].
    unfold no_model_entries. cbn [app]. apply list_elem_of_fmap. by exists metric.
  - apply (results_last_appended _ _ l); [done|]. by rewrite Hh.
Qed.

(** X19. With no validation set, the callback is a plain history of the
    logs: after [on_epoch_end], [results] gives under every key of the logs
    the value the logs had for it. *)
Theorem results_of_logs cls epoch_ logs w k v :
  validation_sets (self w) = [] →
  record_original_history (self w) = true →
  sequences_nonempty (history (self w)) →
  logs_or_empty logs !! k = Some v →
  ∃ r,
    results (self (after_epoch cls epoch_ logs w)) = Ok (Some r) ∧
    r !! k = Some (Scalar v).
Proof.
  intros Hsets Hroh Hne Hk.
  pose proof (on_epoch_end_sequences_nonempty cls epoch_ logs w Hne) as Hne'.
  fold (after_epoch cls epoch_ logs w) in Hne'.
  apply (results_last_appended _ _ (default [] (history (self w) !! k)));
    [done|].
  unfold after_epoch. rewrite on_epoch_end_loop, Hsets. cbv zeta.
  rewrite bool_decide_eq_true_2 by done. cbn [fst].
  by rewrite after_logs_history, Hroh, log_entries_lookup, Hk.
Qed.

Lemma sequences_nonempty_empty : sequences_nonempty ∅.
Proof. intros k l Hk. by rewrite lookup_empty in Hk. Qed.

Lemma results_without_model_witness :
  ∃ r,
    results (self (after_epoch no_model_class 1 example_logs silent_start))
      = Ok (Some r) ∧
    r !! metric_key (prefix no_model_class)
           (spec_name (GeneratorSet 0 2 "gen")) "acc" = Some (Scalar nan).
Proof.
  apply (results_without_model no_model_class 1 example_logs silent_start
           example_model example_specs (GeneratorSet 0 2 "gen") "acc").
  - reflexivity.
  - reflexivity.
  - reflexivity.
  - reflexivity.
  - exact sequences_nonempty_empty.
  - apply list_elem_of_here.
  - apply list_elem_of_further, list_elem_of_here.
Defined.

Lemma results_of_logs_witness :
  ∃ r,
    results (self (after_epoch base_class 1 example_logs
                     (born fresh_callback ∅))) = Ok (Some r) ∧
    r !! "loss" = Some (Scalar loss_value).
Proof.
  apply (results_of_logs base_class 1 example_logs (born fresh_callback ∅)
           "loss" loss_value).
  - reflexivity.
  - reflexivity.
  - exact sequences_nonempty_empty.
  - reflexivity.
Defined.
